(** * Learn-AI-Engineering: the notebooks as programs over the SDKs they call

    The repository is three instructional notebooks.  Every cell either
    formats a request, calls a vendor SDK or a third-party library, or
    prints a response.  The notebooks are embedded here as finite programs
    over a signature of SDK requests; the SDKs themselves (the hosted chat
    and embedding endpoints, the tokenizer, the text splitter, the vector
    store) are the environment and answer the requests. *)

From Stdlib Require Import String Ascii List ZArith QArith Lia Bool.
From Stdlib Require Import DecimalString.
From ExtLib Require Import Structures.Monad Data.Monads.EitherMonad.
Import ListNotations.
Import MonadNotation.

Local Close Scope Q_scope.
Local Open Scope list_scope.
Local Open Scope string_scope.
Local Open Scope monad_scope.

Set Implicit Arguments.
Set Warnings "-register-all".

(** ** Python values and built-ins used by the cells *)

Module Py.

(** Exceptions a cell can end with: the ones the interpreter raises on
    the expressions the notebooks contain, and whatever an SDK raises. *)
Inductive exception : Type :=
| IndexError
| AttributeError
| External (name : string).

(** A Python [float], carried around but never computed on. *)
Definition float := Q.

(** What [print] and a cell's last expression can be given. *)
Inductive object : Type :=
| PNone
| PStr (s : string)
| PInt (z : Z)
| PFloat (x : float)
| PList (l : list object)
| PTuple (l : list object).

Definition len {A} (l : list A) : Z := Z.of_nat (length l).

(** [len(s)] for a [str]: the number of characters. *)
Definition len_str (s : string) : Z := Z.of_nat (String.length s).

(** [l[i]]: a negative index counts from the end, an index out of range
    raises [IndexError]. *)
Definition index {A} (l : list A) (i : Z) : exception + A :=
  let j := if (i <? 0)%Z then (i + len l)%Z else i in
  if ((0 <=? j) && (j <? len l))%Z
  then match nth_error l (Z.to_nat j) with
       | Some x => inr x
       | None => inl IndexError
       end
  else inl IndexError.

(** [range(n)] for [n >= 0]. *)
Definition range (n : Z) : list Z := map Z.of_nat (seq 0 (Z.to_nat n)).

(** [sep.join(l)]. *)
Definition join (sep : string) (l : list string) : string :=
  String.concat sep l.

(** [str(z)] for an [int]. *)
Definition str_int (z : Z) : string := NilZero.string_of_int (Z.to_int z).

(** The newline character as a string, and the separator [\n\n]. *)
Definition nl : string := String "010" EmptyString.
Definition nlnl : string := nl ++ nl.

(** The double-quote character. *)
Definition dquote : string := String (ascii_of_nat 34) EmptyString.

(** A list comprehension [[f(i) for i in l]] whose body can raise: the
    elements are evaluated left to right and the first exception ends
    the comprehension. *)
Fixpoint comprehension {A B} (f : A -> exception + B) (l : list A)
  : exception + list B :=
  match l with
  | [] => inr []
  | a :: l' =>
      match f a with
      | inl e => inl e
      | inr b =>
          match comprehension f l' with
          | inl e => inl e
          | inr bs => inr (b :: bs)
          end
      end
  end.

End Py.

Import Py.

(** ** The objects of the SDKs *)

(** A chat message as the notebooks write it: [{"role": r, "content": c}]. *)
Record message_param : Type := Msg { role : string; content : string }.

(** The chat-completion response, as far as the notebooks read it. *)
Record ChatCompletionMessage : Type :=
  { message_content : option string }.
Record Choice : Type := { message : ChatCompletionMessage }.
Record CompletionUsage : Type := { completion_tokens : Z }.
Record ChatCompletion : Type :=
  { choices : list Choice; usage : option CompletionUsage }.

(** The embeddings response. *)
Record Embedding : Type := { embedding : list float }.
Record CreateEmbeddingResponse : Type := { data : list Embedding }.

(** A tokenizer handle returned by [tiktoken.encoding_for_model]. *)
Record Encoding : Type := { encoding_name : string }.

(** LangChain's splitter object is its configuration. *)
Record Document : Type := { page_content : string }.
Record RecursiveCharacterTextSplitter : Type :=
  { chunk_size : Z;
    chunk_overlap : Z;
    length_function : string -> Z;
    is_separator_regex : bool }.

(** Qdrant's models. *)
Inductive Distance : Type := COSINE | EUCLID | DOT | MANHATTAN.
Record VectorParams : Type := { size : Z; distance : Distance }.
Record PointStruct : Type :=
  { point_id : Z;
    point_vector : list float;
    point_payload : list (string * string) }.
Record ScoredPoint : Type := { hit_id : Z; hit_score : float }.

(** A parsed JSON value ([json.loads]). *)
Inductive json : Type :=
| JNull
| JBool (b : bool)
| JNumber (x : float)
| JString (s : string)
| JArray (l : list json)
| JObject (l : list (string * json)).

(** ** The signature of requests *)

(** One constructor per SDK or library entry point the notebooks call,
    with the arguments the call is given. *)
Inductive request : Type :=
| load_dotenv
| OpenAI
| Path_read_text (path : string)
| chat_completions_create
    (model : string) (messages : list message_param) (temperature : Z)
| embeddings_create (input : list string) (model : string)
| tiktoken_encoding_for_model (model : string)
| Encoding_encode (encoding : Encoding) (text : string)
| create_documents (splitter : RecursiveCharacterTextSplitter)
    (texts : list string)
| QdrantClient (location : string)
| recreate_collection (collection_name : string)
    (vectors_config : VectorParams)
| upload_points (collection_name : string) (points : list PointStruct)
| search (collection_name : string) (query_vector : list float) (limit : Z)
| model_dump_json (r : ChatCompletion)
| json_loads (s : string)
| json_dumps (obj : json) (indent : Z)
| print (obj : object)
| display (obj : object).

(** What each request returns when it does not raise. *)
Definition reply (q : request) : Type :=
  match q with
  | load_dotenv => bool
  | OpenAI => unit
  | Path_read_text _ => string
  | chat_completions_create _ _ _ => ChatCompletion
  | embeddings_create _ _ => CreateEmbeddingResponse
  | tiktoken_encoding_for_model _ => Encoding
  | Encoding_encode _ _ => list Z
  | create_documents _ _ => list Document
  | QdrantClient _ => unit
  | recreate_collection _ _ => bool
  | upload_points _ _ => unit
  | search _ _ _ => list ScoredPoint
  | model_dump_json _ => string
  | json_loads _ => json
  | json_dumps _ _ => string
  | print _ => unit
  | display _ => unit
  end.

(** ** Programs *)

(** A cell is a finite tree: it returns, raises, or issues a request and
    continues with the answer.  There is no constructor for catching an
    exception because no cell has a [try]. *)
Inductive prog (R : Type) : Type :=
| Ret (r : R)
| Raise (e : exception)
| Call (q : request) (k : reply q -> prog R).

Arguments Ret {R} r.
Arguments Raise {R} e.
Arguments Call {R} q k.

Fixpoint bind_prog {A B} (p : prog A) (f : A -> prog B) : prog B :=
  match p with
  | Ret a => f a
  | Raise e => Raise e
  | Call q k => Call q (fun x => bind_prog (k x) f)
  end.

#[export] Instance Monad_prog : Monad prog :=
  { ret := @Ret; bind := @bind_prog }.

(** Issue one request and return its answer. *)
Definition call (q : request) : prog (reply q) := Call q Ret.

(** A pure Python expression that can raise. *)
Definition lift {A} (v : exception + A) : prog A :=
  match v with
  | inl e => Raise e
  | inr a => Ret a
  end.

(** ** Running a program against an environment *)

(** The environment answers every request, or raises, and may change. *)
Record env : Type :=
  { world : Type;
    respond : forall q : request, world -> (exception + reply q) * world }.

(** One line of the log of a run: the request and how it ended. *)
Record entry : Type :=
  Entry { req : request; outcome : exception + reply req }.

Record run_result (W R : Type) : Type :=
  { trace : list entry; result : exception + R; final : W }.

Fixpoint run {R} (E : env) (p : prog R) (w : world E)
  : run_result (world E) R :=
  match p with
  | Ret r => {| trace := []; result := inr r; final := w |}
  | Raise e => {| trace := []; result := inl e; final := w |}
  | Call q k =>
      match respond E q w with
      | (inl e, w') =>
          {| trace := [Entry q (inl e)]; result := inl e; final := w' |}
      | (inr x, w') =>
          let r := run E (k x) w' in
          {| trace := Entry q (inr x) :: trace r;
             result := result r;
             final := final r |}
      end
  end.

(** [post p Q]: [Q] holds of the log and the outcome of [p] whatever the
    environment answers. *)
Fixpoint post {R} (p : prog R) (Q : list entry -> exception + R -> Prop)
  : Prop :=
  match p with
  | Ret r => Q [] (inr r)
  | Raise e => Q [] (inl e)
  | Call q k =>
      (forall e, Q [Entry q (inl e)] (inl e)) /\
      (forall x, post (k x) (fun tr res => Q (Entry q (inr x) :: tr) res))
  end.

(** ** The functions the notebooks define *)

Definition MODEL : string := "gpt-3.5-turbo-0125".
Definition EMBEDDING_MODEL : string := "text-embedding-3-small".

(** [ask(query, model)], notebook Search-101. *)
Definition ask (query : string) (model : string) : prog (option string) :=
  response <- call (chat_completions_create model
                      [ Msg "system" "You are a helpful assistant.";
                        Msg "user" query ]
                      0) ;;
  choice <- lift (index (choices response) 0) ;;
  ret (message_content (message choice)).

(** [num_tokens(text, model)]. *)
Definition num_tokens (text : string) (model : string) : prog Z :=
  encoding <- call (tiktoken_encoding_for_model model) ;;
  tokens <- call (Encoding_encode encoding text) ;;
  ret (len tokens).

(** [create_embeddings(texts, model)]. *)
Definition create_embeddings (texts : list string) (model : string)
  : prog CreateEmbeddingResponse :=
  call (embeddings_create texts model).

(** The instruction string of [ask_with_context].  The triple-quoted
    literal ends at the first run of three quotes, so the quotation that
    opens before [I could not find] stays open. *)
Definition introduction : string :=
  "Use the below writing from Paul Graham to answer the subsequent question. If the answer cannot be found in the articles, write "
  ++ dquote ++ "I could not find an answer.".

(** [ask_with_context(query, context, model)]. *)
Definition ask_with_context (query : string) (context : list string)
  (model : string) : prog (option string) :=
  let question := nlnl ++ "Question: " ++ query ++ nlnl in
  let context := join nlnl context in
  ask ((introduction ++ context) ++ question) model.

(** The request [ask] sends. *)
Definition ask_request (model : string) (query : string) : request :=
  chat_completions_create model
    [ Msg "system" "You are a helpful assistant."; Msg "user" query ] 0.

(** The prompt [ask_with_context] builds. *)
Definition prompt (query : string) (context : list string) : string :=
  (introduction ++ join nlnl context)
  ++ (nlnl ++ "Question: " ++ query ++ nlnl).

(** ** Notebook plumbing *)

(** The value of a cell's last expression is shown under the cell, unless
    it is [None]. *)
Definition show (v : object) : prog unit :=
  match v with
  | PNone => ret tt
  | _ => call (display v)
  end.

(** The [content] of a reply as a Python object: a [str] or [None]. *)
Definition of_content (c : option string) : object :=
  match c with
  | Some s => PStr s
  | None => PNone
  end.

(** [response.choices[0].message.content]. *)
Definition first_content (r : ChatCompletion) : exception + option string :=
  choice <- index (choices r) 0 ;;
  ret (message_content (message choice)).

(** [response.usage.completion_tokens]; [usage] is optional in the SDK. *)
Definition usage_completion_tokens (r : ChatCompletion) : exception + Z :=
  match usage r with
  | Some u => inr (completion_tokens u)
  | None => inl AttributeError
  end.

(** The first cell of every notebook: [load_dotenv()] and
    [client = OpenAI()]. *)
Definition setup : prog unit :=
  _ <- call load_dotenv ;;
  call OpenAI.

(** ** Notebook Week1-Lecture2-Search-101 *)

Module Search101.

(** The module-level variables of the notebook after its last cell. *)
Record globals : Type :=
  { text : string;
    texts : list Document;
    context_text : list string;
    response : CreateEmbeddingResponse;
    vectors : list (list float);
    points : list PointStruct;
    query_vector : list float;
    search_results : list ScoredPoint;
    neighbors : list Z;
    distances : list float;
    selected_context : list string;
    answer : option string }.

Definition essay_path : string := "../data/paul_graham/paul_graham_essay.txt".
Definition question : string := "What did Paul Graham do in Summer of 2016?".

Definition text_splitter : RecursiveCharacterTextSplitter :=
  {| chunk_size := 1024;
     chunk_overlap := 96;
     length_function := len_str;
     is_separator_regex := false |}.

(** The comprehension that builds [points]: one [PointStruct] per index of
    [vectors], with [texts[i]] raising when [texts] is shorter. *)
Definition points_of (vectors : list (list float)) (texts : list Document)
  : exception + list PointStruct :=
  comprehension
    (fun i =>
       v <- index vectors i ;;
       t <- index texts i ;;
       ret {| point_id := i;
              point_vector := v;
              point_payload := [("content", page_content t)] |})
    (range (len vectors)).

(** The point the comprehension builds at index [i] from [vectors[i]] and
    [texts[i]]. *)
Definition point_at (i : nat) (v : list float) (t : Document) : PointStruct :=
  {| point_id := Z.of_nat i;
     point_vector := v;
     point_payload := [("content", page_content t)] |}.

Definition cell_read : prog string :=
  call (Path_read_text essay_path).

Definition cell_ask : prog unit :=
  a <- ask question MODEL ;;
  show (of_content a).

Definition cell_num_tokens (text : string) : prog unit :=
  n <- num_tokens text MODEL ;;
  show (PInt n).

Definition cell_chunking (text : string)
  : prog (list Document * list string) :=
  texts <- call (create_documents text_splitter [text]) ;;
  let context_text := map page_content texts in
  first <- lift (index context_text 0) ;;
  _ <- show (PTuple [PInt (len context_text); PStr first]) ;;
  ret (texts, context_text).

Definition cell_embed (context_text : list string)
  : prog CreateEmbeddingResponse :=
  response <- create_embeddings context_text EMBEDDING_MODEL ;;
  _ <- call (print (PStr ("Number of documents: "
                            ++ str_int (len (data response))))) ;;
  ret response.

Definition cell_vectors (response : CreateEmbeddingResponse)
  : prog (list (list float)) :=
  let vectors := map embedding (data response) in
  v0 <- lift (index vectors 0) ;;
  _ <- show (PTuple [PInt (len vectors); PInt (len v0)]) ;;
  ret vectors.

Definition cell_index (vectors : list (list float)) (texts : list Document)
  : prog (list PointStruct) :=
  _ <- call (QdrantClient ":memory:") ;;
  _ <- call (recreate_collection "demo"
               {| size := 1536; distance := COSINE |}) ;;
  points <- lift (points_of vectors texts) ;;
  _ <- call (upload_points "demo" points) ;;
  ret points.

Definition cell_query : prog (list float) :=
  r <- create_embeddings [question] EMBEDDING_MODEL ;;
  d <- lift (index (data r) 0) ;;
  ret (embedding d).

Definition cell_search (query_vector : list float)
  : prog (list ScoredPoint * list Z * list float) :=
  search_results <- call (search "demo" query_vector 2) ;;
  let neighbors := map hit_id search_results in
  let distances := map hit_score search_results in
  _ <- call (print (PList (map PInt neighbors))) ;;
  _ <- call (print (PList (map PFloat distances))) ;;
  ret (search_results, neighbors, distances).

Definition cell_answer (context_text : list string) (neighbors : list Z)
  : prog (list string * option string) :=
  n0 <- lift (index neighbors 0) ;;
  c <- lift (index context_text n0) ;;
  let selected_context := [c] in
  a <- ask_with_context question selected_context MODEL ;;
  _ <- show (of_content a) ;;
  ret (selected_context, a).

(** The cells in the order of the notebook. *)
Definition notebook : prog globals :=
  _ <- setup ;;
  text <- cell_read ;;
  _ <- cell_ask ;;
  _ <- cell_num_tokens text ;;
  '(texts, context_text) <- cell_chunking text ;;
  response <- cell_embed context_text ;;
  vectors <- cell_vectors response ;;
  points <- cell_index vectors texts ;;
  query_vector <- cell_query ;;
  '(search_results, neighbors, distances) <- cell_search query_vector ;;
  '(selected_context, answer) <- cell_answer context_text neighbors ;;
  ret {| text := text;
         texts := texts;
         context_text := context_text;
         response := response;
         vectors := vectors;
         points := points;
         query_vector := query_vector;
         search_results := search_results;
         neighbors := neighbors;
         distances := distances;
         selected_context := selected_context;
         answer := answer |}.

(** *** The log of a session that reaches the last cell *)

(** The answers of the SDKs that the notebook does not keep in a variable
    of its own. *)
Record answers : Type :=
  { dotenv_loaded : bool;
    first_reply : ChatCompletion;
    encoding : Encoding;
    tokens : list Z;
    recreated : bool;
    query_response : CreateEmbeddingResponse;
    final_reply : ChatCompletion }.

(** The log entry of a shown value. *)
Definition shown (v : object) : list entry :=
  match v with
  | PNone => []
  | _ => [Entry (display v) (inr tt)]
  end.

Definition shown_reply (r : ChatCompletion) : list entry :=
  match first_content r with
  | inr c => shown (of_content c)
  | inl _ => []
  end.

(** The requests of a complete session up to the retrieval, cell by
    cell, with the answers they got. *)
Definition retrieval_log (g : globals) (x : answers) : list entry :=
  ([ Entry load_dotenv (inr (dotenv_loaded x));
     Entry OpenAI (inr tt);
     Entry (Path_read_text essay_path) (inr (text g));
     Entry (ask_request MODEL question) (inr (first_reply x)) ]
   ++ shown_reply (first_reply x)
   ++ [ Entry (tiktoken_encoding_for_model MODEL) (inr (encoding x));
        Entry (Encoding_encode (encoding x) (text g)) (inr (tokens x));
        Entry (display (PInt (len (tokens x)))) (inr tt);
        Entry (create_documents text_splitter [text g]) (inr (texts g));
        Entry (display (PTuple [ PInt (len (context_text g));
                                 PStr (hd "" (context_text g)) ])) (inr tt);
        Entry (embeddings_create (context_text g) EMBEDDING_MODEL)
          (inr (response g));
        Entry (print (PStr ("Number of documents: "
                              ++ str_int (len (data (response g))))))
          (inr tt);
        Entry (display (PTuple [ PInt (len (vectors g));
                                 PInt (len (hd [] (vectors g))) ])) (inr tt);
        Entry (QdrantClient ":memory:") (inr tt);
        Entry (recreate_collection "demo"
                 {| size := 1536; distance := COSINE |})
          (inr (recreated x));
        Entry (upload_points "demo" (points g)) (inr tt);
        Entry (embeddings_create [question] EMBEDDING_MODEL)
          (inr (query_response x));
        Entry (search "demo" (query_vector g) 2) (inr (search_results g));
        Entry (print (PList (map PInt (neighbors g)))) (inr tt);
        Entry (print (PList (map PFloat (distances g)))) (inr tt) ])%list.

(** The whole log: the retrieval, then the generation over the selected
    context, then the answer shown. *)
Definition log (g : globals) (x : answers) : list entry :=
  (retrieval_log g x
   ++ [ Entry (ask_request MODEL (prompt question (selected_context g)))
          (inr (final_reply x)) ]
   ++ shown (of_content (answer g)))%list.

(** How the variables of a complete session depend on one another and on
    the answers. *)
Record consistent (g : globals) (x : answers) : Prop :=
  { context_text_def : context_text g = map page_content (texts g);
    vectors_def : vectors g = map embedding (data (response g));
    points_def : points_of (vectors g) (texts g) = inr (points g);
    query_vector_def :
      exists d, index (data (query_response x)) 0 = inr d /\
                query_vector g = embedding d;
    neighbors_def : neighbors g = map hit_id (search_results g);
    distances_def : distances g = map hit_score (search_results g);
    selected_context_def :
      exists c, (n0 <- index (neighbors g) 0 ;; index (context_text g) n0)
                = inr c /\
                selected_context g = [c];
    answer_def : first_content (final_reply x) = inr (answer g) }.

(** What holds of a run of the notebook: nothing if it raised, and
    otherwise the log and the variables fit together. *)
Definition complete (tr : list entry) (res : exception + globals) : Prop :=
  forall g, res = inr g -> exists x, consistent g x /\ tr = log g x.

End Search101.

(** ** Notebook Week1-Lecture1-Course-Introduction *)

Module Lecture1.

Definition knock_knock : list message_param :=
  [ Msg "system" "You are a helpful assistant.";
    Msg "user" "Knock knock.";
    Msg "assistant" "Who's there?";
    Msg "user" "Orange." ].

Definition verbose_weather : list message_param :=
  [ Msg "system" "You are a friendly and helpful teaching assistant.";
    Msg "user" "Describe the weather in Nagpur in May" ].

Definition notebook : prog unit :=
  _ <- setup ;;
  response <- call (chat_completions_create MODEL knock_knock 0) ;;
  dumped <- call (model_dump_json response) ;;
  loaded <- call (json_loads dumped) ;;
  pretty <- call (json_dumps loaded 4) ;;
  _ <- call (print (PStr pretty)) ;;
  reply0 <- lift (first_content response) ;;
  _ <- show (of_content reply0) ;;
  response <- call (chat_completions_create MODEL verbose_weather 0) ;;
  reply1 <- lift (first_content response) ;;
  _ <- call (print (of_content reply1)) ;;
  n <- lift (usage_completion_tokens response) ;;
  call (print (PInt n)).

End Lecture1.

(** ** The third notebook (prompting essentials) *)

Module Prompting.

Definition concise_weather : list message_param :=
  [ Msg "system" "You are a concise, crisp assistant.";
    Msg "user" "Describe the weather in Nagpur in May" ].

Definition few_shot : list message_param :=
  [ Msg "system"
      "You are a helpful, pattern-following assistant who speaks plain English.";
    Msg "user"
      "Help me translate the following corporate jargon into plain English.";
    Msg "assistant" "Sure, I'd be happy to!";
    Msg "user" "New synergies will help drive top-line growth.";
    Msg "assistant" "Things working well together will increase revenue.";
    Msg "user"
      "Let's circle back when we have more bandwidth to touch base on opportunities for increased leverage.";
    Msg "assistant"
      "Let's talk later when we're less busy about how to do better." ].

Definition notebook : prog unit :=
  _ <- setup ;;
  response <- call (chat_completions_create MODEL concise_weather 0) ;;
  reply0 <- lift (first_content response) ;;
  _ <- call (print (of_content reply0)) ;;
  n <- lift (usage_completion_tokens response) ;;
  _ <- call (print (PInt n)) ;;
  response <- call (chat_completions_create MODEL few_shot 0) ;;
  reply1 <- lift (first_content response) ;;
  call (print (of_content reply1)).

End Prompting.

(** ** Properties of logs *)

(** The SDK entry point a request goes to, without its arguments. *)
Inductive endpoint : Type :=
| EP_load_dotenv | EP_OpenAI | EP_read_text | EP_chat | EP_embeddings
| EP_encoding_for_model | EP_encode | EP_create_documents | EP_QdrantClient
| EP_recreate_collection | EP_upload_points | EP_search
| EP_model_dump_json | EP_json_loads | EP_json_dumps | EP_print | EP_display.

Definition endpoint_of (q : request) : endpoint :=
  match q with
  | load_dotenv => EP_load_dotenv
  | OpenAI => EP_OpenAI
  | Path_read_text _ => EP_read_text
  | chat_completions_create _ _ _ => EP_chat
  | embeddings_create _ _ => EP_embeddings
  | tiktoken_encoding_for_model _ => EP_encoding_for_model
  | Encoding_encode _ _ => EP_encode
  | create_documents _ _ => EP_create_documents
  | QdrantClient _ => EP_QdrantClient
  | recreate_collection _ _ => EP_recreate_collection
  | upload_points _ _ => EP_upload_points
  | search _ _ _ => EP_search
  | model_dump_json _ => EP_model_dump_json
  | json_loads _ => EP_json_loads
  | json_dumps _ _ => EP_json_dumps
  | print _ => EP_print
  | display _ => EP_display
  end.

Definition endpoint_eqb (a b : endpoint) : bool :=
  match a, b with
  | EP_load_dotenv, EP_load_dotenv | EP_OpenAI, EP_OpenAI
  | EP_read_text, EP_read_text | EP_chat, EP_chat
  | EP_embeddings, EP_embeddings
  | EP_encoding_for_model, EP_encoding_for_model | EP_encode, EP_encode
  | EP_create_documents, EP_create_documents
  | EP_QdrantClient, EP_QdrantClient
  | EP_recreate_collection, EP_recreate_collection
  | EP_upload_points, EP_upload_points | EP_search, EP_search
  | EP_model_dump_json, EP_model_dump_json | EP_json_loads, EP_json_loads
  | EP_json_dumps, EP_json_dumps | EP_print, EP_print
  | EP_display, EP_display => true
  | _, _ => false
  end.

(** How many requests of a log went to the endpoint [ep]. *)
Definition calls_to (ep : endpoint) (tr : list entry) : nat :=
  length (filter (fun en => endpoint_eqb (endpoint_of (req en)) ep) tr).

(** Whether the request of a log entry raised. *)
Definition raised (en : entry) : option exception :=
  match outcome en with
  | inl e => Some e
  | inr _ => None
  end.

(** The exceptions raised by requests of a log, in order. *)
Definition raises (tr : list entry) : list exception :=
  flat_map (fun en => match raised en with Some e => [e] | None => [] end) tr.

(** A run made each SDK call at most once, and an exception raised by a
    request is the outcome of the run: nothing was caught, retried or
    replaced. *)
Definition single_shot {R} (tr : list entry) (res : exception + R) : Prop :=
  (forall ep, calls_to ep tr <= 1) /\
  (forall en, In en tr -> forall e, raised en = Some e ->
     res = inl e /\ exists tr0, tr = (tr0 ++ [en])%list /\ raises tr0 = []).

(** Whether a log entry is a request to the vector-store client. *)
Definition to_vector_store (en : entry) : bool :=
  match endpoint_of (req en) with
  | EP_QdrantClient | EP_recreate_collection | EP_upload_points
  | EP_search => true
  | _ => false
  end.

(** ** What a request does to the outside *)

Inductive effect : Type :=
| ReadsLocalFile (path : string)
| LoadsEnvironment (path : string)
| CachesDownload
| CallsRemoteAPI
| ComputesLocally
| OpensVectorStore (location : string)
| ChangesCollection (collection_name : string)
| QueriesCollection (collection_name : string)
| WritesStdout
| ShowsCellOutput.

(** What each request does outside the notebook, inside the library
    included.  [load_dotenv] reads the [.env] file and sets the process
    environment from it.  [tiktoken.encoding_for_model] loads the
    vocabulary of the tokenizer: it reads it from tiktoken's cache
    directory and, when it is not there, downloads it and writes it to the
    cache.  [display] is the value a cell returns, shown under it. *)
Definition effect_of (q : request) : effect :=
  match q with
  | load_dotenv => LoadsEnvironment ".env"
  | Path_read_text path => ReadsLocalFile path
  | tiktoken_encoding_for_model _ => CachesDownload
  | chat_completions_create _ _ _ | embeddings_create _ _ => CallsRemoteAPI
  | OpenAI | Encoding_encode _ _
  | create_documents _ _ | model_dump_json _ | json_loads _
  | json_dumps _ _ => ComputesLocally
  | QdrantClient location => OpensVectorStore location
  | recreate_collection name _ | upload_points name _ =>
      ChangesCollection name
  | search name _ _ => QueriesCollection name
  | print _ => WritesStdout
  | display _ => ShowsCellOutput
  end.







(** [P] holds of every request a program can issue. *)
Fixpoint all_requests {R} (P : request -> Prop) (p : prog R) : Prop :=
  match p with
  | Ret _ => True
  | Raise _ => True
  | Call q k => P q /\ forall x, all_requests P (k x)
  end.

(** ** A store in memory *)

(** A collection held in memory as the list of its points, searched by
    ranking every point with a given similarity.  It answers the requests
    to the vector store when a notebook is run here. *)
Module MemoryStore.

Section Store.

Variable similarity : list float -> list float -> float.

Fixpoint insert (query : list float) (p : PointStruct)
  (l : list PointStruct) : list PointStruct :=
  match l with
  | [] => [p]
  | p' :: l' =>
      if Qle_bool (similarity query (point_vector p'))
           (similarity query (point_vector p))
      then p :: l
      else p' :: insert query p l'
  end.

(** The stored points, best first. *)
Definition ranked (query : list float) (stored : list PointStruct)
  : list PointStruct :=
  fold_right (insert query) [] stored.

Definition hit (query : list float) (p : PointStruct) : ScoredPoint :=
  {| hit_id := point_id p;
     hit_score := similarity query (point_vector p) |}.

Definition search_points (stored : list PointStruct) (query : list float)
  (limit : Z) : list ScoredPoint :=
  map (hit query) (firstn (Z.to_nat limit) (ranked query stored)).

End Store.

End MemoryStore.

(** ** A small environment to run the notebooks in *)

Module Demo.

(** The stored vectors are ranked by the product of their first
    coordinate with the query's. *)
Definition similarity (query v : list float) : float :=
  (hd 0 query * hd 0 v)%Q.

Definition a_reply : ChatCompletion :=
  {| choices :=
       [ {| message := {| message_content := Some "He painted." |} |} ];
     usage := Some {| completion_tokens := 3 |} |}.

Definition chunks : list Document :=
  [ {| page_content := "What I Worked On" |};
    {| page_content := "In the summer of 2016 we moved to England." |} ].

(** The world is the content of the collection. *)
Definition serve (q : request) (w : list PointStruct)
  : (exception + reply q) * list PointStruct :=
  match q with
  | load_dotenv => (inr true, w)
  | OpenAI => (inr tt, w)
  | Path_read_text _ => (inr "What I Worked On ...", w)
  | chat_completions_create _ _ _ => (inr a_reply, w)
  | embeddings_create input _ =>
      (inr {| data :=
                map (fun s => {| embedding := [inject_Z (len_str s)] |})
                  input |}, w)
  | tiktoken_encoding_for_model _ =>
      (inr {| encoding_name := "cl100k_base" |}, w)
  | Encoding_encode _ text =>
      (inr (map (fun c => Z.of_nat (nat_of_ascii c))
              (list_ascii_of_string text)), w)
  | create_documents _ _ => (inr chunks, w)
  | QdrantClient _ => (inr tt, [])
  | recreate_collection _ _ => (inr true, [])
  | upload_points _ points => (inr tt, points)
  | search _ query limit =>
      (inr (MemoryStore.search_points similarity w query limit), w)
  | model_dump_json _ => (inr "{}", w)
  | json_loads _ => (inr (JObject []), w)
  | json_dumps _ _ => (inr "{}", w)
  | print _ => (inr tt, w)
  | display _ => (inr tt, w)
  end.

Definition environment : env :=
  {| world := list PointStruct; respond := serve |}.

(** The variables of the Search-101 session in this environment. *)
Definition session : Search101.globals :=
  Eval vm_compute in
    match result (run environment Search101.notebook []) with
    | inr g => g
    | inl _ =>
        {| Search101.text := "";
           Search101.texts := [];
           Search101.context_text := [];
           Search101.response := {| data := [] |};
           Search101.vectors := [];
           Search101.points := [];
           Search101.query_vector := [];
           Search101.search_results := [];
           Search101.neighbors := [];
           Search101.distances := [];
           Search101.selected_context := [];
           Search101.answer := None |}
    end.

(** An environment in which every request fails. *)
Definition offline : env :=
  {| world := unit;
     respond := fun q w => (inl (External "APIConnectionError"), w) |}.

End Demo.

(** ** Reading a log *)

(** The points of an upload that went through. *)
Definition uploaded_by (en : entry) : list (list PointStruct) :=
  match req en as q return exception + reply q -> list (list PointStruct) with
  | upload_points _ points =>
      fun o => match o with inr _ => [points] | inl _ => [] end
  | _ => fun _ => []
  end (outcome en).

Definition uploads (tr : list entry) : list (list PointStruct) :=
  flat_map uploaded_by tr.

(** The reply of a chat request that was answered. *)
Definition chat_reply (en : entry) : list ChatCompletion :=
  match req en as q return exception + reply q -> list ChatCompletion with
  | chat_completions_create _ _ _ =>
      fun o => match o with inr r => [r] | inl _ => [] end
  | _ => fun _ => []
  end (outcome en).

Definition chat_replies (tr : list entry) : list ChatCompletion :=
  flat_map chat_reply tr.

(** The hits of a search that was answered. *)
Definition search_answer (en : entry) : list (list ScoredPoint) :=
  match req en as q return exception + reply q -> list (list ScoredPoint) with
  | search _ _ _ => fun o => match o with inr hits => [hits] | inl _ => [] end
  | _ => fun _ => []
  end (outcome en).

Definition search_answers (tr : list entry) : list (list ScoredPoint) :=
  flat_map search_answer tr.

(** The documents of a request to the splitter that was answered. *)
Definition split_answer (en : entry) : list (list Document) :=
  match req en as q return exception + reply q -> list (list Document) with
  | create_documents _ _ =>
      fun o => match o with inr docs => [docs] | inl _ => [] end
  | _ => fun _ => []
  end (outcome en).

Definition split_answers (tr : list entry) : list (list Document) :=
  flat_map split_answer tr.

(** The entry points of a log in order, leaving out the values shown
    under cells (a value is shown only when it is not [None]). *)
Definition stages (tr : list entry) : list endpoint :=
  filter (fun ep => negb (endpoint_eqb ep EP_display))
    (map (fun en => endpoint_of (req en)) tr).

Fixpoint initial_segment (l schedule : list endpoint) : bool :=
  match l, schedule with
  | [], _ => true
  | a :: l', b :: schedule' => endpoint_eqb a b && initial_segment l' schedule'
  | _ :: _, [] => false
  end.

(** The fixed order of the SDK calls of the Search-101 notebook. *)
Definition search101_schedule : list endpoint :=
  [ EP_load_dotenv; EP_OpenAI; EP_read_text; EP_chat;
    EP_encoding_for_model; EP_encode; EP_create_documents;
    EP_embeddings; EP_print; EP_QdrantClient; EP_recreate_collection;
    EP_upload_points; EP_embeddings; EP_search; EP_print; EP_print;
    EP_chat ].

Definition lecture1_schedule : list endpoint :=
  [ EP_load_dotenv; EP_OpenAI; EP_chat; EP_model_dump_json; EP_json_loads;
    EP_json_dumps; EP_print; EP_chat; EP_print; EP_print ].

Definition prompting_schedule : list endpoint :=
  [ EP_load_dotenv; EP_OpenAI; EP_chat; EP_print; EP_print; EP_chat;
    EP_print ].

(** A log is on schedule when its calls are an initial segment of the
    schedule, and all of it when the run returned. *)
Definition on_schedule (schedule : list endpoint) {A}
  (tr : list entry) (res : exception + A) : Prop :=
  initial_segment (stages tr) schedule = true /\
  forall a, res = inr a -> stages tr = schedule.

(** How often the entry point [ep] is on a schedule. *)
Definition scheduled (ep : endpoint) (schedule : list endpoint) : nat :=
  length (filter (fun a => endpoint_eqb a ep) schedule).

(** What a run of the Search-101 notebook does after a search without
    hits. *)
Definition stops_without_hits (tr : list entry)
  (res : exception + Search101.globals) : Prop :=
  In [] (search_answers tr) ->
  calls_to EP_chat tr = 1 /\
  (exists e, res = inl e) /\
  (raises tr = [] -> res = inl IndexError).

(** What it does after a document without chunks. *)
Definition stops_without_chunks (tr : list entry)
  (res : exception + Search101.globals) : Prop :=
  In [] (split_answers tr) ->
  calls_to EP_embeddings tr = 0 /\
  calls_to EP_QdrantClient tr = 0 /\
  (exists e, res = inl e) /\
  (raises tr = [] -> res = inl IndexError).

(** What a run of the prompting notebook does with a first reply that
    has a choice but no [usage]. *)
Definition needs_usage (tr : list entry) (res : exception + unit) : Prop :=
  forall reply rest,
    chat_replies tr = reply :: rest ->
    usage reply = None -> choices reply <> [] ->
    rest = [] /\
    (exists e, res = inl e) /\
    (raises tr = [] ->
     res = inl AttributeError /\ calls_to EP_print tr = 1).

(** What a run of the first notebook does with a first reply that has no
    choice. *)
Definition prints_before_reading (tr : list entry) (res : exception + unit)
  : Prop :=
  forall reply rest,
    chat_replies tr = reply :: rest ->
    choices reply = [] ->
    rest = [] /\
    (exists e, res = inl e) /\
    (raises tr = [] ->
     res = inl IndexError /\
     calls_to EP_json_dumps tr = 1 /\ calls_to EP_print tr = 1).

(** [c] occurs in [s] as it is. *)
Definition occurs (c s : string) : Prop :=
  exists before after, s = before ++ c ++ after.

(** ** What the notebooks always send *)

(** The shape of every chat request: the one model, temperature 0, and
    one system message, the first, before the turns of the user and the
    assistant. *)
Definition chat_convention (q : request) : Prop :=
  match q with
  | chat_completions_create model messages temperature =>
      model = MODEL /\ temperature = 0%Z /\
      exists s rest,
        messages = Msg "system" s :: rest /\ rest <> [] /\
        Forall (fun m => role m = "user" \/ role m = "assistant") rest
  | _ => True
  end.

(** No request of the retrieval carries an empty batch, and each goes to
    the one embedding model or the one collection. *)
Definition batch_convention (q : request) : Prop :=
  match q with
  | embeddings_create input model => model = EMBEDDING_MODEL /\ input <> []
  | create_documents _ texts => length texts = 1
  | upload_points name points => name = "demo" /\ points <> []
  | recreate_collection name _ => name = "demo"
  | search name _ limit => name = "demo" /\ limit = 2%Z
  | _ => True
  end.

(** [P] holds of every request a program can issue and [R] of every
    value it can return. *)
Fixpoint safe {A} (P : request -> Prop) (R : A -> Prop) (p : prog A)
  : Prop :=
  match p with
  | Ret a => R a
  | Raise _ => True
  | Call q k => P q /\ forall x, safe P R (k x)
  end.

(** ** Environments for the edge cases *)

Module Scenario.

(** [E] with some requests answered differently. *)
Definition override (E : env)
  (f : forall q : request, option (exception + reply q)) : env :=
  {| world := world E;
     respond := fun q w =>
       match f q with
       | Some o => (o, w)
       | None => respond E q w
       end |}.

Definition no_choices : ChatCompletion := {| choices := []; usage := None |}.

Definition no_usage : ChatCompletion :=
  {| choices := [ {| message := {| message_content := Some "Hot." |} |} ];
     usage := None |}.

(** The chat endpoint answers [r]. *)
Definition chatting (r : ChatCompletion) : env :=
  override Demo.environment
    (fun q =>
       match q as q0 return option (exception + reply q0) with
       | chat_completions_create _ _ _ => Some (inr r)
       | _ => None
       end).

(** The splitter finds no chunk. *)
Definition empty_document : env :=
  override Demo.environment
    (fun q =>
       match q as q0 return option (exception + reply q0) with
       | create_documents _ _ => Some (inr [])
       | _ => None
       end).

(** The search finds no point. *)
Definition no_hits : env :=
  override Demo.environment
    (fun q =>
       match q as q0 return option (exception + reply q0) with
       | search _ _ _ => Some (inr [])
       | _ => None
       end).

End Scenario.

(** * Theorems *)

(** ** Runs and logs *)

(** [run] against any environment is covered by [post]. *)
Lemma post_run R (p : prog R) :
  forall Q E w, post p Q -> Q (trace (run E p w)) (result (run E p w)).
Proof.
  induction p as [r | e | q k IH]; intros Q E w HQ; simpl in *.
  - exact HQ.
  - exact HQ.
  - destruct HQ as [Hraise Hcont].
    destruct (respond E q w) as [[e | x] w']; simpl.
    + apply Hraise.
    + apply (IH x (fun tr res => Q (Entry q (inr x) :: tr) res)), Hcont.
Qed.

(** A run of a single request is the environment's answer to it. *)
Lemma run_call E (q : request) (w : world E) :
  run E (call q) w =
    {| trace := [Entry q (fst (respond E q w))];
       result := fst (respond E q w);
       final := snd (respond E q w) |}.
Proof.
  unfold call. simpl.
  destruct (respond E q w) as [[e | x] w']; reflexivity.
Qed.

(** Splits a hypothesis [In en tr] over a log given entry by entry. *)
Ltac in_log H :=
  repeat (destruct H as [H | H]; [subst | ]); try contradiction.

(** Closes [single_shot] on a log given entry by entry. *)
Ltac single_shot_tac :=
  split;
  [ intros ep; destruct ep; cbn; lia
  | let en := fresh "en" in
    let Hin := fresh "Hin" in
    let e := fresh "e" in
    let He := fresh "He" in
    intros en Hin e He; cbn in Hin; in_log Hin;
    cbn in He; try discriminate He;
    injection He as <-;
    (split;
     [ reflexivity
     | match goal with
       | |- exists tr0, ?tr = _ /\ _ =>
           exists (removelast tr); split; reflexivity
       end ]) ].

Lemma ask_single_shot query model :
  post (ask query model) single_shot.
Proof.
  unfold ask. simpl. split.
  - intros e. single_shot_tac.
  - intros r. destruct (index (choices r) 0) as [e | c]; simpl;
      single_shot_tac.
Qed.

Lemma num_tokens_single_shot text model :
  post (num_tokens text model) single_shot.
Proof.
  unfold num_tokens. simpl. split.
  - intros e. single_shot_tac.
  - intros enc. split.
    + intros e. single_shot_tac.
    + intros toks. single_shot_tac.
Qed.

Lemma create_embeddings_single_shot texts model :
  post (create_embeddings texts model) single_shot.
Proof.
  unfold create_embeddings. simpl. split.
  - intros e. single_shot_tac.
  - intros r. single_shot_tac.
Qed.

(** ** Python indexing and comprehensions *)

Lemma index_of_nat {A} (l : list A) (i : nat) (x : A) :
  index l (Z.of_nat i) = inr x <-> nth_error l i = Some x.
Proof.
  unfold index, len.
  destruct (Z.ltb_spec (Z.of_nat i) 0) as [Hneg | _]; [lia |].
  rewrite Nat2Z.id.
  destruct (Z.leb_spec 0 (Z.of_nat i)) as [_ | Hneg]; [| lia].
  destruct (Z.ltb_spec (Z.of_nat i) (Z.of_nat (length l))) as [Hlt | Hge];
    simpl.
  - destruct (nth_error l i) as [y |] eqn:Hy.
    + split; intros [= ->]; reflexivity.
    + split; intros H; discriminate H.
  - split; [intros H; discriminate H |].
    intros H.
    assert (Hi : i < length l) by (apply nth_error_Some; congruence).
    lia.
Qed.

Lemma index_0_cons {A} (l : list A) (a : A) :
  index l 0 = inr a -> exists rest, l = a :: rest.
Proof.
  intros H. apply (index_of_nat l 0 a) in H.
  destruct l as [| b rest]; simpl in H; [discriminate H |].
  injection H as ->. now exists rest.
Qed.

Lemma comprehension_nth {A B} (f : A -> exception + B) (l : list A) :
  forall bs,
    comprehension f l = inr bs ->
    length bs = length l /\
    forall i a, nth_error l i = Some a ->
                exists b, nth_error bs i = Some b /\ f a = inr b.
Proof.
  induction l as [| a l IH]; simpl; intros bs H.
  - injection H as <-. split; [reflexivity |].
    intros [| i] a' Ha; discriminate Ha.
  - destruct (f a) as [e | b] eqn:Hfa; [discriminate H |].
    destruct (comprehension f l) as [e | bs'] eqn:Hrec; [discriminate H |].
    injection H as <-.
    destruct (IH bs' eq_refl) as [Hlen Hnth].
    split; [simpl; now rewrite Hlen |].
    intros [| i] a' Ha; simpl in *.
    + injection Ha as <-. now exists b.
    + now apply Hnth.
Qed.

Lemma comprehension_total {A B} (f : A -> exception + B) (l : list A) :
  (forall a, In a l -> exists b, f a = inr b) ->
  exists bs, comprehension f l = inr bs.
Proof.
  induction l as [| a l IH]; simpl; intros Hf.
  - now exists [].
  - destruct (Hf a (or_introl eq_refl)) as [b ->].
    destruct IH as [bs ->]; [intros a' Ha'; apply Hf; now right |].
    now exists (b :: bs).
Qed.

Lemma range_len_nth {A} (l : list A) (i : nat) :
  i < length l -> nth_error (range (len l)) i = Some (Z.of_nat i).
Proof.
  intros Hi. unfold range, len. rewrite Nat2Z.id.
  rewrite nth_error_map, nth_error_seq.
  destruct (Nat.ltb_spec i (length l)) as [_ | Hge]; [reflexivity | lia].
Qed.

Lemma range_len_length {A} (l : list A) :
  length (range (len l)) = length l.
Proof.
  unfold range, len. now rewrite Nat2Z.id, length_map, length_seq.
Qed.

Lemma range_len_In {A} (l : list A) (z : Z) :
  In z (range (len l)) -> exists i, z = Z.of_nat i /\ i < length l.
Proof.
  unfold range, len. rewrite Nat2Z.id. intros H.
  apply in_map_iff in H. destruct H as [i [<- Hi]].
  apply in_seq in Hi. exists i. split; [reflexivity | lia].
Qed.

(** ** The points built from the vectors and the chunks *)

Section Points.
Import Search101.

Variables (vectors : list (list float)) (texts : list Document).

Lemma points_of_nth ps :
  points_of vectors texts = inr ps ->
  length ps = length vectors /\
  forall i, i < length vectors ->
    exists v t, nth_error vectors i = Some v /\
                nth_error texts i = Some t /\
                nth_error ps i = Some (point_at i v t).
Proof.
  unfold points_of. intros H.
  apply comprehension_nth in H. destruct H as [Hlen Hnth].
  rewrite range_len_length in Hlen. split; [exact Hlen |].
  intros i Hi.
  destruct (Hnth i (Z.of_nat i) (range_len_nth vectors Hi)) as [p [Hp Hf]].
  simpl in Hf.
  destruct (index vectors (Z.of_nat i)) as [e | v] eqn:Hv;
    [discriminate Hf |].
  destruct (index texts (Z.of_nat i)) as [e | t] eqn:Ht;
    [discriminate Hf |].
  simpl in Hf. injection Hf as <-.
  apply index_of_nat in Hv. apply index_of_nat in Ht.
  exists v, t. repeat split; assumption.
Qed.

Lemma points_of_In ps p :
  points_of vectors texts = inr ps ->
  In p ps ->
  exists i v t, nth_error vectors i = Some v /\
                nth_error texts i = Some t /\
                nth_error ps i = Some p /\
                p = point_at i v t.
Proof.
  intros Hps Hin.
  destruct (points_of_nth Hps) as [Hlen Hnth].
  apply In_nth_error in Hin. destruct Hin as [i Hi].
  assert (Hlt : i < length vectors).
  { rewrite <- Hlen. apply nth_error_Some. congruence. }
  destruct (Hnth i Hlt) as [v [t [Hv [Ht Hp]]]].
  exists i, v, t. repeat split; try assumption. congruence.
Qed.

Lemma points_of_ids ps :
  points_of vectors texts = inr ps ->
  map point_id ps = range (len vectors).
Proof.
  intros Hps. destruct (points_of_nth Hps) as [Hlen Hnth].
  apply nth_error_ext. intros i.
  rewrite nth_error_map.
  destruct (Nat.lt_ge_cases i (length vectors)) as [Hlt | Hge].
  - destruct (Hnth i Hlt) as [v [t [_ [_ ->]]]]. simpl.
    now rewrite range_len_nth.
  - rewrite (proj2 (nth_error_None ps i)) by lia. simpl.
    symmetry. apply nth_error_None. rewrite range_len_length. lia.
Qed.

(** The comprehension raises only when there are fewer chunks than
    vectors. *)
Lemma points_of_total :
  length vectors <= length texts ->
  exists ps, points_of vectors texts = inr ps.
Proof.
  intros Hle. unfold points_of. apply comprehension_total.
  intros z Hz. apply range_len_In in Hz. destruct Hz as [i [-> Hi]].
  destruct (nth_error vectors i) as [v |] eqn:Hv;
    [| apply nth_error_None in Hv; lia].
  destruct (nth_error texts i) as [t |] eqn:Ht;
    [| apply nth_error_None in Ht; lia].
  apply index_of_nat in Hv. apply index_of_nat in Ht.
  simpl. rewrite Hv, Ht. simpl. eauto.
Qed.

End Points.

(** ** The Search-101 session *)

Module Search101Facts.
Import Search101.

Lemma index_0_hd {A} (l : list A) (d a : A) :
  index l 0 = inr a -> hd d l = a.
Proof.
  destruct l as [| b l]; unfold index; simpl; [discriminate |].
  now intros [= ->].
Qed.

Ltac raised_case := intros; discriminate.

(** A shown value adds its log entry, or nothing when it is [None]. *)
Lemma post_show R (v : object) (f : unit -> prog R) Q :
  (forall e, Q [Entry (display v) (inl e)] (inl e)) ->
  post (f tt) (fun tr res => Q (shown v ++ tr)%list res) ->
  post (bind_prog (show v) f) Q.
Proof.
  intros Hraise Hcont.
  destruct v; simpl in *; try exact Hcont;
    (split; [exact Hraise | intros []; exact Hcont]).
Qed.

Lemma post_bind_assoc A B C (p : prog A) (f : A -> prog B) (g : B -> prog C) :
  forall Q,
    post (bind_prog p (fun a => bind_prog (f a) g)) Q ->
    post (bind_prog (bind_prog p f) g) Q.
Proof.
  induction p as [a | e | q k IH]; intros Q HQ; simpl in *; auto.
  destruct HQ as [Hraise Hcont]. split; [exact Hraise |].
  intros x. apply IH, Hcont.
Qed.

Lemma notebook_post : post notebook complete.
Proof.
  unfold notebook, complete. simpl.
  split; [raised_case | intros dotenv].
  split; [raised_case | intros []].
  split; [raised_case | intros text].
  split; [raised_case | intros reply1].
  destruct (index (choices reply1) 0) as [e | choice1] eqn:Hchoice1; simpl;
    [raised_case |].
  assert (Hshown1 : shown (of_content (message_content (message choice1)))
                    = shown_reply reply1).
  { unfold shown_reply, first_content. simpl. now rewrite Hchoice1. }
  apply post_show; [raised_case | rewrite Hshown1; simpl].
  split; [raised_case | intros enc].
  split; [raised_case | intros toks].
  split; [raised_case | intros []].
  split; [raised_case | intros docs].
  destruct (index (map page_content docs) 0) as [e | first] eqn:Hfirst;
    simpl; [raised_case |].
  split; [raised_case | intros []].
  split; [raised_case | intros resp].
  split; [raised_case | intros []].
  unfold cell_vectors.
  destruct (index (map embedding (data resp)) 0) as [e | v0] eqn:Hv0;
    simpl; [raised_case |].
  split; [raised_case | intros []].
  split; [raised_case | intros []].
  split; [raised_case | intros created].
  destruct (points_of (map embedding (data resp)) docs) as [e | pts]
    eqn:Hpts; simpl; [raised_case |].
  split; [raised_case | intros []].
  split; [raised_case | intros qresp].
  destruct (index (data qresp) 0) as [e | d] eqn:Hd; simpl; [raised_case |].
  split; [raised_case | intros hits].
  split; [raised_case | intros []].
  split; [raised_case | intros []].
  unfold cell_answer.
  destruct (index (map hit_id hits) 0) as [e | n0] eqn:Hn0; simpl;
    [raised_case |].
  destruct (index (map page_content docs) n0) as [e | c] eqn:Hc; simpl;
    [raised_case |].
  unfold ask_with_context, ask. simpl.
  split; [raised_case | intros reply2].
  destruct (index (choices reply2) 0) as [e | choice2] eqn:Hchoice2; simpl;
    [raised_case |].
  apply post_bind_assoc, post_show; [raised_case | simpl].
  intros g [= <-].
  exists {| dotenv_loaded := dotenv;
            first_reply := reply1;
            encoding := enc;
            tokens := toks;
            recreated := created;
            query_response := qresp;
            final_reply := reply2 |}.
  split.
  - constructor; simpl; try reflexivity.
    + exact Hpts.
    + exists d. split; [exact Hd | reflexivity].
    + exists c. split; [| reflexivity].
      rewrite Hn0. simpl. exact Hc.
    + unfold first_content. rewrite Hchoice2. reflexivity.
  - unfold log, retrieval_log. simpl.
    rewrite (index_0_hd _ "" Hfirst), (index_0_hd _ [] Hv0).
    rewrite app_nil_r, <- !app_assoc. reflexivity.
Qed.

(** Every run of the notebook that reaches the last cell has the log
    [log] and consistent variables. *)
Lemma notebook_complete E w g :
  result (run E notebook w) = inr g ->
  exists x, consistent g x /\ trace (run E notebook w) = log g x.
Proof.
  intros Hres.
  exact (post_run notebook complete E w notebook_post g Hres).
Qed.

(** Reading a log entry off [log]. *)
Ltac find_in :=
  match goal with
  | |- In _ (_ ++ _) => apply in_or_app; ((left; find_in) + (right; find_in))
  | |- In _ (_ :: _) => (left; reflexivity) + (right; find_in)
  end.

Lemma calls_to_app ep (l l' : list entry) :
  calls_to ep (l ++ l') = calls_to ep l + calls_to ep l'.
Proof.
  unfold calls_to. now rewrite filter_app, length_app.
Qed.

Lemma calls_to_shown ep v :
  ep <> EP_display -> calls_to ep (shown v) = 0.
Proof.
  intros Hep. destruct v; simpl; try reflexivity;
    destruct ep; try reflexivity; contradiction.
Qed.

Lemma calls_to_shown_reply ep r :
  ep <> EP_display -> calls_to ep (shown_reply r) = 0.
Proof.
  intros Hep. unfold shown_reply.
  destruct (first_content r); [reflexivity | now apply calls_to_shown].
Qed.

Lemma filter_store_shown v : filter to_vector_store (shown v) = [].
Proof. destruct v; reflexivity. Qed.

Lemma filter_store_shown_reply r :
  filter to_vector_store (shown_reply r) = [].
Proof.
  unfold shown_reply.
  destruct (first_content r); [reflexivity | apply filter_store_shown].
Qed.

(** How often a complete session calls an entry point other than
    [display] is read off the fixed part of its log. *)
Lemma calls_to_log ep g x :
  ep <> EP_display ->
  calls_to ep (log g x) =
    match ep with
    | EP_chat | EP_embeddings => 2
    | EP_print => 3
    | EP_model_dump_json | EP_json_loads | EP_json_dumps | EP_display => 0
    | _ => 1
    end.
Proof.
  intros Hep. unfold log, retrieval_log.
  rewrite !calls_to_app, calls_to_shown_reply, calls_to_shown by exact Hep.
  destruct ep; try reflexivity. contradiction.
Qed.

End Search101Facts.


(** The log of [ask] is its one chat-completion request, whatever the
    environment answers. *)
Lemma ask_trace E w query model :
  let q := chat_completions_create model
             [ Msg "system" "You are a helpful assistant.";
               Msg "user" query ] 0 in
  trace (run E (ask query model) w) = [Entry q (fst (respond E q w))].
Proof.
  unfold ask. simpl.
  destruct (respond E _ w) as [[e | r] w']; simpl; [reflexivity |].
  destruct (index (choices r) 0) as [e | c]; reflexivity.
Qed.

Lemma append_assoc (a b c : string) : (a ++ b) ++ c = a ++ (b ++ c).
Proof.
  induction a as [| ch a IH]; simpl; [reflexivity | now rewrite IH].
Qed.

(** The prompt of [ask_with_context] as Python evaluates the sum of the
    claim, left to right. *)
Lemma prompt_assoc (context query : string) :
  (introduction ++ context) ++ (nlnl ++ "Question: " ++ query ++ nlnl)
  = (((introduction ++ context) ++ (nlnl ++ "Question: ")) ++ query) ++ nlnl.
Proof.
  rewrite !append_assoc. reflexivity.
Qed.

(** ** The functions one by one *)

(** Offline, [ask] ends with the connection error of its one request. *)
Example ask_offline :
  run Demo.offline (ask "Knock knock." MODEL) tt =
    {| trace := [Entry (ask_request MODEL "Knock knock.")
                   (inl (External "APIConnectionError"))];
       result := inl (External "APIConnectionError");
       final := tt |}.
Proof. reflexivity. Qed.

(** A reply without choices makes [ask] raise [IndexError]. *)
Example ask_no_choice E w query model w' :
  respond E (ask_request model query) w
  = (inr {| choices := []; usage := None |}, w') ->
  result (run E (ask query model) w) = inl IndexError.
Proof.
  unfold ask, ask_request. simpl. intros ->. reflexivity.
Qed.

Example join_two : join nlnl ["a"; "b"] = "a" ++ nlnl ++ "b".
Proof. reflexivity. Qed.

Example index_last : index [10%Z; 20%Z; 30%Z] (-1) = inr 30%Z.
Proof. reflexivity. Qed.

Example index_out_of_range : index [10%Z; 20%Z] 2 = inl IndexError.
Proof. reflexivity. Qed.

(** C2. [create_embeddings(texts, model)] is one call to the embeddings
    endpoint with [input = texts] and [model = model]: against every
    environment the log of the call is that one request, the value
    returned (or the exception raised) is the endpoint's own answer,
    unmodified, and the environment is left as that one request left it. *)
Theorem create_embeddings_one_call E w texts model :
  run E (create_embeddings texts model) w =
    {| trace := [Entry (embeddings_create texts model)
                   (fst (respond E (embeddings_create texts model) w))];
       result := fst (respond E (embeddings_create texts model) w);
       final := snd (respond E (embeddings_create texts model) w) |}.
Proof.
  unfold create_embeddings.
  exact (run_call E (embeddings_create texts model) w).
Qed.

(** C4. No retry, no backoff, no handler: in every environment each of
    [ask], [create_embeddings], [ask_with_context] and [num_tokens] sends
    at most one request to each SDK entry point, and when a request raises,
    that request is the last of the log, no earlier one raised, and the
    exception it raised is the outcome of the function. *)
Theorem sdk_errors_propagate_unretried E w :
  (forall query model,
      let r := run E (ask query model) w in
      single_shot (trace r) (result r)) /\
  (forall texts model,
      let r := run E (create_embeddings texts model) w in
      single_shot (trace r) (result r)) /\
  (forall query context model,
      let r := run E (ask_with_context query context model) w in
      single_shot (trace r) (result r)) /\
  (forall text model,
      let r := run E (num_tokens text model) w in
      single_shot (trace r) (result r)).
Proof.
  split; [| split; [| split]]; intros; cbv zeta.
  - exact (post_run _ single_shot E w (ask_single_shot query model)).
  - exact (post_run _ single_shot E w
             (create_embeddings_single_shot texts model)).
  - unfold ask_with_context.
    exact (post_run _ single_shot E w (ask_single_shot _ model)).
  - exact (post_run _ single_shot E w (num_tokens_single_shot text model)).
Qed.

(** C5. [ask_with_context(query, context, model)] is
    [ask(introduction + sep.join(context) + sep + "Question: " + query + sep,
    model)] with [sep] the two-newline string: the two programs are equal;
    the one request it sends is a chat completion for the model it was
    given, with the system message and that prompt as the only user
    message; and with an empty context the prompt is the introduction
    followed by the question part.  The introduction is the fixed string
    that begins [Use the below writing from Paul Graham]. *)
Theorem ask_with_context_is_ask query model :
  prefix "Use the below writing from Paul Graham" introduction = true /\
  (forall context,
      ask_with_context query context model =
        ask ((((introduction ++ join nlnl context)
                 ++ (nlnl ++ "Question: ")) ++ query) ++ nlnl) model) /\
  (forall context E w,
      let q := chat_completions_create model
                 [ Msg "system" "You are a helpful assistant.";
                   Msg "user"
                     ((((introduction ++ join nlnl context)
                          ++ (nlnl ++ "Question: ")) ++ query) ++ nlnl) ]
                 0 in
      trace (run E (ask_with_context query context model) w)
      = [Entry q (fst (respond E q w))]) /\
  ask_with_context query [] model =
    ask (((introduction ++ (nlnl ++ "Question: ")) ++ query) ++ nlnl) model.
Proof.
  assert (Heq : forall context,
             ask_with_context query context model =
               ask ((((introduction ++ join nlnl context)
                        ++ (nlnl ++ "Question: ")) ++ query) ++ nlnl) model).
  { intros context. unfold ask_with_context.
    rewrite prompt_assoc. reflexivity. }
  split; [reflexivity | split; [exact Heq | split]].
  - intros context E w. rewrite Heq. apply ask_trace.
  - rewrite Heq. reflexivity.
Qed.

Section Search101Claims.
Import Search101 Search101Facts.

(** A point built from chunk [i] is found again under its id, in the
    vectors and in the chunk texts. *)
Lemma point_found_by_id vectors texts ps p :
  points_of vectors texts = inr ps ->
  In p ps ->
  index vectors (point_id p) = inr (point_vector p) /\
  exists c, index (map page_content texts) (point_id p) = inr c /\
            point_payload p = [("content", c)].
Proof.
  intros Hps Hin.
  destruct (@points_of_In vectors texts ps p Hps Hin)
    as [i [v [t [Hv [Ht [_ ->]]]]]].
  simpl. split; [now apply index_of_nat |].
  exists (page_content t). split; [| reflexivity].
  apply index_of_nat. rewrite nth_error_map, Ht. reflexivity.
Qed.

(** C8. The points uploaded to the collection [demo] are index-aligned
    with the chunks: in a session that reaches the last cell the one
    upload carries the points whose ids are [0 .. len(vectors) - 1], point
    [i] has the vector [vectors[i]], the [i]-th embedding returned for the
    list of chunks, and the payload
    [{"content": texts[i].page_content}], which is chunk [i] of
    [context_text]; so the id of a point finds both its vector and its
    text. *)
Theorem uploaded_points_index_aligned E w g :
  result (run E notebook w) = inr g ->
  In (Entry (embeddings_create (context_text g) EMBEDDING_MODEL)
        (inr (response g))) (trace (run E notebook w)) /\
  vectors g = map embedding (data (response g)) /\
  In (Entry (upload_points "demo" (points g)) (inr tt))
    (trace (run E notebook w)) /\
  calls_to EP_upload_points (trace (run E notebook w)) = 1 /\
  map point_id (points g) = range (len (vectors g)) /\
  (forall i, i < length (vectors g) ->
     exists v t,
       nth_error (vectors g) i = Some v /\
       nth_error (texts g) i = Some t /\
       nth_error (context_text g) i = Some (page_content t) /\
       nth_error (points g) i = Some (point_at i v t)) /\
  (forall p, In p (points g) ->
     index (vectors g) (point_id p) = inr (point_vector p) /\
     exists c, index (context_text g) (point_id p) = inr c /\
               point_payload p = [("content", c)]).
Proof.
  intros Hres.
  destruct (@notebook_complete E w g Hres) as [x [Hg ->]].
  destruct Hg as [Hctx Hvec Hpts _ _ _ _ _].
  split; [unfold log, retrieval_log; find_in |].
  split; [exact Hvec |].
  split; [unfold log, retrieval_log; find_in |].
  split; [now rewrite calls_to_log |].
  split; [exact (@points_of_ids (vectors g) (texts g) (points g) Hpts) |].
  split.
  - intros i Hi.
    destruct (@points_of_nth (vectors g) (texts g) (points g) Hpts)
      as [_ Hnth].
    destruct (Hnth i Hi) as [v [t [Hv [Ht Hp]]]].
    exists v, t. repeat split; try assumption.
    rewrite Hctx, nth_error_map, Ht. reflexivity.
  - intros p Hp. rewrite Hctx.
    exact (@point_found_by_id (vectors g) (texts g) (points g) p Hpts Hp).
Qed.

Lemma uploaded_points_index_aligned_witness :
  map point_id (points Demo.session) = [0%Z; 1%Z] /\
  nth_error (points Demo.session) 1 =
    Some (point_at 1 [inject_Z 42]
            {| page_content :=
                 "In the summer of 2016 we moved to England." |}).
Proof.
  destruct (@uploaded_points_index_aligned Demo.environment []
              Demo.session eq_refl)
    as [_ [_ [_ [_ [Hids [Hnth _]]]]]].
  split; [exact Hids |].
  destruct (Hnth 1 (le_n 2)) as [v [t [Hv [Ht [_ Hp]]]]].
  injection Hv as <-. injection Ht as <-. exact Hp.
Defined.

(** C1. The context of the generation step comes from retrieval.  In a
    session that reaches the last cell: the chunks were embedded, the
    points built from those embeddings were uploaded, the collection was
    searched for the embedded question, and the search returned a first
    hit; [selected_context] is the one string
    [context_text[neighbors[0]]]; that string is the [content] payload of
    the uploaded point whose id is the id of the first hit, and there is
    such a point whenever that id is an index of [vectors]; and the answer
    is the content of the first choice of a chat completion whose prompt
    is built from that string, the last request of the session before the
    answer is shown. *)
Theorem context_is_first_hit E w g :
  result (run E notebook w) = inr g ->
  exists hit rest c final before asked d,
    In (Entry (embeddings_create (context_text g) EMBEDDING_MODEL)
          (inr (response g))) (trace (run E notebook w)) /\
    vectors g = map embedding (data (response g)) /\
    In (Entry (upload_points "demo" (points g)) (inr tt))
      (trace (run E notebook w)) /\
    In (Entry (embeddings_create [question] EMBEDDING_MODEL) (inr asked))
      (trace (run E notebook w)) /\
    index (data asked) 0 = inr d /\
    query_vector g = embedding d /\
    In (Entry (search "demo" (query_vector g) 2) (inr (hit :: rest)))
      (trace (run E notebook w)) /\
    neighbors g = hit_id hit :: map hit_id rest /\
    index (context_text g) (hit_id hit) = inr c /\
    selected_context g = [c] /\
    (forall p, In p (points g) -> point_id p = hit_id hit ->
               point_payload p = [("content", c)]) /\
    ((0 <= hit_id hit < len (vectors g))%Z ->
     exists p, In p (points g) /\ point_id p = hit_id hit) /\
    trace (run E notebook w) =
      (before
       ++ [Entry (ask_request MODEL (prompt question [c])) (inr final)]
       ++ shown (of_content (answer g)))%list /\
    first_content final = inr (answer g).
Proof.
  intros Hres.
  destruct (@notebook_complete E w g Hres) as [x [Hg Htr]].
  destruct Hg as [Hctx Hvec Hpts [d [Hd Hqv]] Hnb _ [c [Hc Hsel]] Hans].
  destruct (index (neighbors g) 0) as [e | n0] eqn:Hn0;
    [discriminate Hc |].
  simpl in Hc.
  destruct (index_0_cons _ Hn0) as [ids Hids].
  rewrite Hnb in Hids.
  destruct (search_results g) as [| hit rest] eqn:Hhits;
    [discriminate Hids |].
  simpl in Hids. injection Hids as Hhit Hrest. subst n0 ids.
  exists hit, rest, c, (final_reply x), (retrieval_log g x),
    (query_response x), d.
  rewrite Htr.
  split; [unfold log, retrieval_log; find_in |].
  split; [exact Hvec |].
  split; [unfold log, retrieval_log; find_in |].
  split; [unfold log, retrieval_log; find_in |].
  split; [exact Hd |].
  split; [exact Hqv |].
  split; [unfold log, retrieval_log; rewrite Hhits; find_in |].
  split; [rewrite Hnb; reflexivity |].
  split; [exact Hc |].
  split; [exact Hsel |].
  split; [| split; [| split; [| exact Hans]]].
  - intros p Hp Hid.
    destruct (@point_found_by_id (vectors g) (texts g) (points g) p Hpts Hp)
      as [_ [c' [Hc' Hpay]]].
    rewrite <- Hctx, Hid, Hc in Hc'. injection Hc' as <-. exact Hpay.
  - intros [Hlo Hhi].
    destruct (@points_of_nth (vectors g) (texts g) (points g) Hpts)
      as [_ Hnth].
    destruct (Hnth (Z.to_nat (hit_id hit))) as [v [t [_ [_ Hp]]]];
      [unfold len in Hhi; lia |].
    exists (point_at (Z.to_nat (hit_id hit)) v t).
    split; [now apply nth_error_In with (Z.to_nat (hit_id hit)) |].
    simpl. lia.
  - unfold log. now rewrite Hsel.
Qed.

Lemma context_is_first_hit_witness :
  exists c,
    selected_context Demo.session = [c] /\
    forall p, In p (points Demo.session) -> point_id p = 1%Z ->
              point_payload p = [("content", c)].
Proof.
  destruct (@context_is_first_hit Demo.environment [] Demo.session eq_refl)
    as (hit & rest & c & final & before & asked & d
        & _ & _ & _ & _ & _ & _ & _ & Hnb & _ & Hsel & Hpay & _).
  exists c. split; [exact Hsel |].
  intros p Hp Hid. apply Hpay; [exact Hp |].
  simpl in Hnb. injection Hnb as Hhit _. congruence.
Defined.

(** C6. Chunking is the imported splitter and nothing else.  The splitter
    is configured with [chunk_size = 1024], [chunk_overlap = 96],
    [length_function = len] and [is_separator_regex = False]; the chunking
    cell sends one request, [create_documents] of that splitter on the
    list holding the one document, followed at most by showing the cell's
    value; the documents it keeps are the splitter's answer and
    [context_text] is the list of their [page_content], in order.  In a
    session that reaches the last cell this is the only request to the
    splitter, it is made on the text read from the essay, and
    [context_text] is the [page_content] of the documents it returned. *)
Theorem chunking_is_the_splitter :
  text_splitter =
    {| chunk_size := 1024;
       chunk_overlap := 96;
       length_function := len_str;
       is_separator_regex := false |} /\
  (forall E w text,
      let q := create_documents text_splitter [text] in
      let r := run E (cell_chunking text) w in
      (exists rest,
          trace r = Entry q (fst (respond E q w)) :: rest /\
          Forall (fun en => endpoint_of (req en) = EP_display) rest) /\
      (forall texts context_text,
          result r = inr (texts, context_text) ->
          fst (respond E q w) = inr texts /\
          context_text = map page_content texts)) /\
  (forall E w g,
      result (run E notebook w) = inr g ->
      In (Entry (create_documents text_splitter [text g]) (inr (texts g)))
        (trace (run E notebook w)) /\
      In (Entry (Path_read_text essay_path) (inr (text g)))
        (trace (run E notebook w)) /\
      calls_to EP_create_documents (trace (run E notebook w)) = 1 /\
      context_text g = map page_content (texts g)).
Proof.
  split; [reflexivity | split].
  - intros E w text q r. subst q r. unfold cell_chunking. simpl.
    destruct (respond E (create_documents text_splitter [text]) w)
      as [[e | docs] w']; simpl.
    { split; [exists []; split; [reflexivity | constructor] |].
      intros texts ctx H. discriminate H. }
    destruct (index (map page_content docs) 0) as [e | first]; simpl.
    { split; [exists []; split; [reflexivity | constructor] |].
      intros texts ctx H. discriminate H. }
    destruct (respond E _ w') as [[e | []] w'']; simpl.
    + split; [eexists; split; [reflexivity | repeat constructor] |].
      intros texts ctx H. discriminate H.
    + split; [eexists; split; [reflexivity | repeat constructor] |].
      intros texts ctx [= <- <-]. split; reflexivity.
  - intros E w g Hres.
    destruct (@notebook_complete E w g Hres) as [x [Hg ->]].
    destruct Hg as [Hctx _ _ _ _ _ _ _].
    split; [unfold log, retrieval_log; find_in |].
    split; [unfold log, retrieval_log; find_in |].
    split; [now rewrite calls_to_log | exact Hctx].
Qed.

Lemma chunking_is_the_splitter_witness :
  context_text Demo.session =
    [ "What I Worked On"; "In the summer of 2016 we moved to England." ] /\
  calls_to EP_create_documents
    (trace (run Demo.environment notebook [])) = 1.
Proof.
  destruct chunking_is_the_splitter as (_ & _ & H).
  destruct (H Demo.environment [] Demo.session eq_refl)
    as (_ & _ & Hcalls & Hctx).
  split; [exact Hctx | exact Hcalls].
Defined.

End Search101Claims.

(** ** What the notebooks do to the outside *)

Lemma all_requests_run R (P : request -> Prop) (p : prog R) :
  all_requests P p ->
  forall E w, Forall (fun en => P (req en)) (trace (run E p w)).
Proof.
  induction p as [r | e | q k IH]; simpl; intros Hp E w.
  - constructor.
  - constructor.
  - destruct Hp as [Hq Hk].
    destruct (respond E q w) as [[e | x] w']; simpl.
    + constructor; [exact Hq | constructor].
    + constructor; [exact Hq | now apply IH].
Qed.

Lemma all_requests_bind A B (P : request -> Prop) (p : prog A)
  (f : A -> prog B) :
  all_requests P p -> (forall a, all_requests P (f a)) ->
  all_requests P (bind_prog p f).
Proof.
  induction p as [r | e | q k IH]; simpl; intros Hp Hf; auto.
  destruct Hp as [Hq Hk]. split; [exact Hq |].
  intros x. now apply IH.
Qed.

Lemma all_requests_lift A (P : request -> Prop) (v : exception + A) :
  all_requests P (lift v).
Proof. destruct v; exact I. Qed.

Lemma all_requests_show (P : request -> Prop) (v : object) :
  P (display v) -> all_requests P (show v).
Proof. intros Hv. destruct v; simpl; auto. Qed.

Lemma all_requests_call (P : request -> Prop) (q : request) :
  P q -> all_requests P (call q).
Proof. intros Hq. simpl. auto. Qed.






(** * Further properties of the code *)

(** ** The comprehension that builds the points *)

Lemma index_raises {A} (l : list A) (i : Z) (e : exception) :
  index l i = inl e -> e = IndexError.
Proof.
  unfold index.
  destruct ((0 <=? _) && (_ <? len l))%Z; [| now intros [= <-]].
  destruct (nth_error l _); [discriminate | now intros [= <-]].
Qed.

Lemma comprehension_raises {A B} (f : A -> exception + B) (l : list A) e :
  comprehension f l = inl e -> exists a, In a l /\ f a = inl e.
Proof.
  induction l as [| a l IH]; simpl; [discriminate |].
  destruct (f a) as [e' | b] eqn:Hfa.
  - intros [= <-]. exists a. split; [now left | exact Hfa].
  - destruct (comprehension f l) as [e' | bs]; [| discriminate].
    intros [= <-]. destruct (IH eq_refl) as [a' [Hin Ha']].
    exists a'. split; [now right | exact Ha'].
Qed.

Lemma range_NoDup (n : Z) : NoDup (range n).
Proof.
  unfold range. generalize (seq_NoDup (Z.to_nat n) 0).
  induction 1 as [| a l Hnotin _ IH]; simpl; constructor; [| exact IH].
  intros Hin. apply in_map_iff in Hin. destruct Hin as [b [Hb Hin]].
  apply Nat2Z.inj in Hb. now subst b.
Qed.

Section PointsEdge.
Import Search101.

Lemma points_of_succeeds_iff_aux vectors texts :
  ((exists ps, points_of vectors texts = inr ps /\
               length ps = length vectors)
   -> length vectors <= length texts) /\
  (forall e, points_of vectors texts = inl e ->
             e = IndexError /\ length texts < length vectors).
Proof.
  assert (Hraise : forall e, points_of vectors texts = inl e ->
                             e = IndexError).
  { intros e He. unfold points_of in He.
    apply comprehension_raises in He. destruct He as [i [_ Hi]].
    simpl in Hi.
    destruct (index vectors i) as [e1 | v] eqn:Hv.
    - injection Hi as <-. now apply index_raises in Hv.
    - destruct (index texts i) as [e2 | t] eqn:Ht; [| discriminate Hi].
      injection Hi as <-. now apply index_raises in Ht. }
  split.
  - intros [ps [Hps _]].
    destruct (@points_of_nth vectors texts ps Hps) as [_ Hnth].
    destruct (Nat.le_gt_cases (length vectors) (length texts))
      as [Hle | Hgt]; [exact Hle |].
    destruct (Hnth (length texts) Hgt) as [v [t [_ [Ht _]]]].
    assert (length texts < length texts)
      by (apply nth_error_Some; congruence).
    lia.
  - intros e He. split; [now apply Hraise |].
    destruct (Nat.le_gt_cases (length vectors) (length texts))
      as [Hle | Hgt]; [| exact Hgt].
    destruct (@points_of_total vectors texts Hle) as [ps Hps]. congruence.
Qed.



(** X2. The points built have pairwise distinct ids, all of them indices
    of [vectors]: no point of an upload replaces another, and a chunk
    beyond the last vector is in no point. *)
Theorem points_ids_distinct vectors texts ps :
  points_of vectors texts = inr ps ->
  NoDup (map point_id ps) /\
  forall p, In p ps -> (0 <= point_id p < len vectors)%Z.
Proof.
  intros Hps. split.
  - rewrite (@points_of_ids vectors texts ps Hps). apply range_NoDup.
  - intros p Hp.
    destruct (@points_of_In vectors texts ps p Hps Hp)
      as [j [v [t' [Hv [_ [_ ->]]]]]].
    assert (j < length vectors) by (apply nth_error_Some; congruence).
    unfold len. simpl. lia.
Qed.

Lemma points_ids_distinct_witness :
  NoDup (map point_id (points Demo.session)).
Proof.
  exact (proj1 (@points_ids_distinct
                  (vectors Demo.session) (texts Demo.session)
                  (points Demo.session) eq_refl)).
Defined.

End PointsEdge.

(** ** What every request looks like *)

Lemma safe_run A (P : request -> Prop) (R : A -> Prop) (p : prog A) :
  safe P R p ->
  forall E w,
    Forall (fun en => P (req en)) (trace (run E p w)) /\
    forall a, result (run E p w) = inr a -> R a.
Proof.
  induction p as [r | e | q k IH]; simpl; intros Hp E w.
  - split; [constructor | now intros a [= <-]].
  - split; [constructor | discriminate].
  - destruct Hp as [Hq Hk].
    destruct (respond E q w) as [[e | x] w']; simpl.
    + split; [repeat constructor; exact Hq | discriminate].
    + destruct (IH x (Hk x) E w') as [Hall Hres].
      split; [constructor; [exact Hq | exact Hall] | exact Hres].
Qed.

Lemma safe_bind A B (P : request -> Prop) (R : A -> Prop) (R' : B -> Prop)
  (p : prog A) (f : A -> prog B) :
  safe P R p -> (forall a, R a -> safe P R' (f a)) ->
  safe P R' (bind_prog p f).
Proof.
  induction p as [r | e | q k IH]; simpl; intros Hp Hf; auto.
  destruct Hp as [Hq Hk]. split; [exact Hq |].
  intros x. now apply IH.
Qed.

Lemma safe_lift A (P : request -> Prop) (v : exception + A) :
  safe P (fun a => v = inr a) (lift v).
Proof. destruct v; simpl; auto. Qed.

Lemma safe_weaken A (P : request -> Prop) (R R' : A -> Prop) (p : prog A) :
  (forall a, R a -> R' a) -> safe P R p -> safe P R' p.
Proof.
  intros HR. induction p as [r | e | q k IH]; simpl; auto.
  intros [Hq Hk]. split; [exact Hq | auto].
Qed.

Lemma safe_show (P : request -> Prop) (v : object) :
  P (display v) -> safe P (fun _ => True) (show v).
Proof. intros Hv. destruct v; simpl; auto. Qed.

Lemma all_requests_safe A (P : request -> Prop) (p : prog A) :
  all_requests P p -> safe P (fun _ => True) p.
Proof.
  induction p as [r | e | q k IH]; simpl; auto.
  intros [Hq Hk]. split; [exact Hq | auto].
Qed.

(** Closes [chat_convention] of a request written out. *)
Ltac conventional :=
  simpl;
  try (split; [reflexivity | split; [reflexivity |]];
       do 2 eexists; split; [reflexivity |];
       split;
       [ discriminate
       | repeat (apply Forall_cons;
                 [simpl; first [left; reflexivity | right; reflexivity] |]);
         apply Forall_nil ]);
  try exact I.

Lemma convention_ask query model :
  model = MODEL -> all_requests chat_convention (ask query model).
Proof.
  intros ->. unfold ask. simpl. split; [conventional |].
  intros r. destruct (index (choices r) 0); exact I.
Qed.

Ltac walk_chat :=
  repeat
    match goal with
    | |- all_requests _ (bind_prog _ _) => apply all_requests_bind
    | |- all_requests _ (bind _ _) => apply all_requests_bind
    | |- all_requests _ (let (_, _) := ?x in _) => destruct x
    | |- forall _, _ => intro
    | |- all_requests _ (lift _) => apply all_requests_lift
    | |- all_requests _ (show _) => apply all_requests_show; exact I
    | |- all_requests _ (ask _ _) => apply convention_ask; reflexivity
    | |- all_requests _ (call _) => apply all_requests_call; conventional
    | |- all_requests _ (ret _) => exact I
    | |- all_requests _ (Ret _) => exact I
    end.

Lemma convention_lecture1 : all_requests chat_convention Lecture1.notebook.
Proof. unfold Lecture1.notebook, setup. walk_chat. Qed.

Lemma convention_prompting : all_requests chat_convention Prompting.notebook.
Proof. unfold Prompting.notebook, setup. walk_chat. Qed.

Lemma convention_search101 : all_requests chat_convention Search101.notebook.
Proof.
  unfold Search101.notebook. walk_chat.
  all: unfold setup, Search101.cell_read, Search101.cell_ask,
         Search101.cell_num_tokens, Search101.cell_chunking,
         Search101.cell_embed, Search101.cell_vectors,
         Search101.cell_index, Search101.cell_query,
         Search101.cell_search, Search101.cell_answer,
         ask_with_context, num_tokens, create_embeddings.
  all: walk_chat.
Qed.

(** X3. Every chat-completion request of the three notebooks, whatever
    the environment answered before, is for the model
    [gpt-3.5-turbo-0125] at temperature 0, and its messages are one system
    message followed by at least one message, each from the user or the
    assistant. *)
Theorem chat_requests_follow_convention E :
  (forall w, Forall (fun en => chat_convention (req en))
               (trace (run E Lecture1.notebook w))) /\
  (forall w, Forall (fun en => chat_convention (req en))
               (trace (run E Prompting.notebook w))) /\
  (forall w, Forall (fun en => chat_convention (req en))
               (trace (run E Search101.notebook w))).
Proof.
  split; [| split]; intros w.
  - exact (all_requests_run _ _ convention_lecture1 E w).
  - exact (all_requests_run _ _ convention_prompting E w).
  - exact (all_requests_run _ _ convention_search101 E w).
Qed.

Lemma index_nonempty {A} (l : list A) (a : A) :
  index l 0 = inr a -> l <> [].
Proof. intros H ->. discriminate H. Qed.

Lemma points_of_nonempty vectors texts ps :
  Search101.points_of vectors texts = inr ps -> vectors <> [] -> ps <> [].
Proof.
  intros Hps Hv ->.
  destruct (@points_of_nth vectors texts [] Hps) as [Hlen _].
  destruct vectors; [now apply Hv | discriminate Hlen].
Qed.

(** Walks through a program request by request, keeping what the
    indexing of each step has shown. *)
Ltac safe_walk :=
  repeat
    (simpl;
     match goal with
     | |- True => exact I
     | |- _ /\ _ => split
     | |- forall _, _ => intro
     | |- context [lift ?v] => destruct v eqn:?
     | |- context [show (of_content ?c)] => destruct c
     end).

Lemma batches_search101 :
  safe batch_convention (fun _ => True) Search101.notebook.
Proof.
  unfold Search101.notebook, setup, Search101.cell_read, Search101.cell_ask,
    Search101.cell_num_tokens, Search101.cell_chunking,
    Search101.cell_embed, Search101.cell_vectors, Search101.cell_index,
    Search101.cell_query, Search101.cell_search, Search101.cell_answer,
    ask_with_context, ask, num_tokens, create_embeddings.
  safe_walk.
  all: try reflexivity; try discriminate.
  all: try (eapply index_nonempty; eassumption).
  all: try (eapply points_of_nonempty;
            [eassumption | eapply index_nonempty; eassumption]).
Qed.

(** X4. No request of the Search-101 notebook carries an empty batch,
    whatever the environment answers: the splitter is given exactly one
    document, the embedding endpoint a non-empty list of texts and the
    model [text-embedding-3-small], the collection [demo] a non-empty list
    of points, and the search of [demo] the limit 2.  (A document without
    chunks or a response without embeddings ends the session before.) *)
Theorem retrieval_requests_are_never_empty E w :
  Forall (fun en => batch_convention (req en))
    (trace (run E Search101.notebook w)).
Proof.
  exact (proj1 (safe_run _ _ _ batches_search101 E w)).
Qed.

(** ** The order of the calls *)

Lemma setup_first A (f : unit -> prog A) E w en :
  In en (trace (run E (bind_prog setup f) w)) ->
  effect_of (req en) = CallsRemoteAPI ->
  exists loaded rest,
    trace (run E (bind_prog setup f) w) =
      Entry load_dotenv (inr loaded) :: Entry OpenAI (inr tt) :: rest.
Proof.
  unfold setup. simpl.
  destruct (respond E load_dotenv w) as [[e | loaded] w1]; simpl.
  { intros [<- | []] Heff. discriminate Heff. }
  destruct (respond E OpenAI w1) as [[e | []] w2]; simpl.
  { intros [<- | [<- | []]] Heff; discriminate Heff. }
  intros _ _. now eexists _, _.
Qed.

(** X5. No request reaches a remote API before the environment file is
    loaded and the client is created: in every run of each notebook, a log
    that holds a chat or an embedding request starts with [load_dotenv]
    and [OpenAI()], both answered. *)
Theorem remote_calls_follow_setup E en :
  effect_of (req en) = CallsRemoteAPI ->
  (forall w, In en (trace (run E Lecture1.notebook w)) ->
     exists loaded rest,
       trace (run E Lecture1.notebook w) =
         Entry load_dotenv (inr loaded) :: Entry OpenAI (inr tt) :: rest) /\
  (forall w, In en (trace (run E Prompting.notebook w)) ->
     exists loaded rest,
       trace (run E Prompting.notebook w) =
         Entry load_dotenv (inr loaded) :: Entry OpenAI (inr tt) :: rest) /\
  (forall w, In en (trace (run E Search101.notebook w)) ->
     exists loaded rest,
       trace (run E Search101.notebook w) =
         Entry load_dotenv (inr loaded) :: Entry OpenAI (inr tt) :: rest).
Proof.
  intros Heff. split; [| split]; intros w Hin.
  - exact (setup_first _ E w en Hin Heff).
  - exact (setup_first _ E w en Hin Heff).
  - exact (setup_first _ E w en Hin Heff).
Qed.

Lemma remote_calls_follow_setup_witness :
  exists loaded rest,
    trace (run Demo.environment Search101.notebook []) =
      Entry load_dotenv (inr loaded) :: Entry OpenAI (inr tt) :: rest.
Proof.
  refine (proj2 (proj2
            (@remote_calls_follow_setup Demo.environment
               (Entry (ask_request MODEL Search101.question)
                  (inr Demo.a_reply)) eq_refl)) [] _).
  right. right. right. left. reflexivity.
Defined.

(** Walks through a program request by request for a property of its
    log. *)
Ltac post_walk leaf :=
  repeat
    (simpl;
     match goal with
     | |- _ /\ _ => split
     | |- forall _ : exception, _ => intro
     | |- forall _ : reply _, _ => intro
     | |- forall _ : unit, _ => intro
     | |- forall _ : bool, _ => intro
     | |- forall _ : string, _ => intro
     | |- forall _ : ChatCompletion, _ => intro
     | |- forall _ : CreateEmbeddingResponse, _ => intro
     | |- forall _ : Encoding, _ => intro
     | |- forall _ : json, _ => intro
     | |- forall _ : list _, _ => intro
     | |- context [lift ?v] => destruct v eqn:?
     | |- context [show (of_content ?c)] => destruct c eqn:?
     | _ => leaf
     end).

Ltac on_schedule_leaf :=
  solve [reflexivity | intros; discriminate | intros; reflexivity].

Lemma schedule_search101 :
  post Search101.notebook (on_schedule search101_schedule).
Proof.
  unfold Search101.notebook, setup, Search101.cell_read, Search101.cell_ask,
    Search101.cell_num_tokens, Search101.cell_chunking,
    Search101.cell_embed, Search101.cell_vectors, Search101.cell_index,
    Search101.cell_query, Search101.cell_search, Search101.cell_answer,
    ask_with_context, ask, num_tokens, create_embeddings.
  unfold on_schedule. post_walk ltac:(on_schedule_leaf).
Qed.

Lemma schedule_lecture1 :
  post Lecture1.notebook (on_schedule lecture1_schedule).
Proof.
  unfold Lecture1.notebook, setup. unfold on_schedule. post_walk ltac:(on_schedule_leaf).
Qed.

Lemma schedule_prompting :
  post Prompting.notebook (on_schedule prompting_schedule).
Proof.
  unfold Prompting.notebook, setup. unfold on_schedule. post_walk ltac:(on_schedule_leaf).
Qed.

(** X6. The notebooks are straight-line: whatever the environment answers
    and wherever a run ends, the SDK calls of its log (the values shown
    under cells apart) are an initial segment of one fixed sequence per
    notebook, and the whole sequence when the run reaches the end. *)
Theorem runs_follow_the_schedule E :
  (forall w, on_schedule lecture1_schedule
               (trace (run E Lecture1.notebook w))
               (result (run E Lecture1.notebook w))) /\
  (forall w, on_schedule prompting_schedule
               (trace (run E Prompting.notebook w))
               (result (run E Prompting.notebook w))) /\
  (forall w, on_schedule search101_schedule
               (trace (run E Search101.notebook w))
               (result (run E Search101.notebook w))).
Proof.
  split; [| split]; intros w.
  - exact (post_run _ _ E w schedule_lecture1).
  - exact (post_run _ _ E w schedule_prompting).
  - exact (post_run _ _ E w schedule_search101).
Qed.

Lemma runs_follow_the_schedule_witness :
  stages (trace (run Demo.environment Search101.notebook []))
  = search101_schedule.
Proof.
  exact (proj2 (proj2 (proj2 (runs_follow_the_schedule Demo.environment))
                  [])
           Demo.session eq_refl).
Defined.

Lemma endpoint_eqb_eq a b : endpoint_eqb a b = true <-> a = b.
Proof.
  split; [| intros ->; destruct b; reflexivity].
  destruct a, b; simpl; intros H; first [reflexivity | discriminate H].
Qed.

Lemma calls_to_stages ep tr :
  ep <> EP_display -> calls_to ep tr = scheduled ep (stages tr).
Proof.
  intros Hep. unfold calls_to, scheduled, stages.
  induction tr as [| en tr IH]; simpl; [reflexivity |].
  destruct (endpoint_eqb (endpoint_of (req en)) ep) eqn:Heq; simpl.
  - apply endpoint_eqb_eq in Heq.
    destruct (endpoint_eqb (endpoint_of (req en)) EP_display) eqn:Hd; simpl.
    + apply endpoint_eqb_eq in Hd. congruence.
    + rewrite Heq. rewrite (proj2 (endpoint_eqb_eq ep ep) eq_refl).
      simpl. now rewrite IH.
  - destruct (endpoint_eqb (endpoint_of (req en)) EP_display); simpl;
      [exact IH |].
    rewrite Heq. exact IH.
Qed.

Lemma initial_segment_scheduled ep l :
  forall schedule,
    initial_segment l schedule = true ->
    scheduled ep l <= scheduled ep schedule.
Proof.
  unfold scheduled.
  induction l as [| a l IH]; intros [| b schedule] H; simpl in *;
    try lia; try discriminate H.
  apply andb_true_iff in H. destruct H as [Hab Hrest].
  apply endpoint_eqb_eq in Hab. subst b.
  specialize (IH schedule Hrest).
  destruct (endpoint_eqb a ep); simpl; lia.
Qed.

Lemma calls_on_schedule ep schedule A tr (res : exception + A) :
  ep <> EP_display -> on_schedule schedule tr res ->
  calls_to ep tr <= scheduled ep schedule.
Proof.
  intros Hep [Hseg _]. rewrite calls_to_stages by exact Hep.
  now apply initial_segment_scheduled.
Qed.

(** X7. However a run ends, a session of the Search-101 notebook sends at
    most two chat requests, two embedding requests, one search, one upload
    and one request to the splitter, and reads the essay at most once;
    the other two notebooks send at most two chat requests each. *)
Theorem sessions_have_bounded_calls E :
  (forall w,
      let tr := trace (run E Search101.notebook w) in
      calls_to EP_chat tr <= 2 /\ calls_to EP_embeddings tr <= 2 /\
      calls_to EP_search tr <= 1 /\ calls_to EP_upload_points tr <= 1 /\
      calls_to EP_create_documents tr <= 1 /\
      calls_to EP_read_text tr <= 1) /\
  (forall w, calls_to EP_chat (trace (run E Lecture1.notebook w)) <= 2) /\
  (forall w, calls_to EP_chat (trace (run E Prompting.notebook w)) <= 2).
Proof.
  split; [| split]; intros w.
  - pose proof (post_run _ _ E w schedule_search101) as H.
    repeat split;
      refine (@calls_on_schedule _ search101_schedule _ _ _ _ H);
      discriminate.
  - refine (@calls_on_schedule _ lecture1_schedule _ _ _ _
              (post_run _ _ E w schedule_lecture1)).
    discriminate.
  - refine (@calls_on_schedule _ prompting_schedule _ _ _ _
              (post_run _ _ E w schedule_prompting)).
    discriminate.
Qed.

(** ** Retrieval that finds nothing *)

(** Closes a leaf of the walk for a run that got an empty answer: before
    the answer there is nothing to show, and after it the next indexing
    raises. *)
Ltac empty_answer_leaf :=
  let Hin := fresh "Hin" in
  intros Hin; simpl in Hin;
  first
    [ contradiction
    | destruct Hin as [Hin | []]; subst;
      first
        [ match goal with
          | H : index (map _ []) 0 = inr _ |- _ => discriminate H
          end
        | repeat match goal with |- _ /\ _ => split end;
          first
            [ reflexivity
            | eexists; reflexivity
            | let Hr := fresh "Hr" in
              intros Hr;
              first
                [ discriminate Hr
                | reflexivity
                | match goal with
                  | H : index _ _ = inl ?e |- inl ?e = _ =>
                      apply index_raises in H; rewrite H; reflexivity
                  end ] ] ] ].

Lemma no_hits_search101 : post Search101.notebook stops_without_hits.
Proof.
  unfold Search101.notebook, setup, Search101.cell_read, Search101.cell_ask,
    Search101.cell_num_tokens, Search101.cell_chunking,
    Search101.cell_embed, Search101.cell_vectors, Search101.cell_index,
    Search101.cell_query, Search101.cell_search, Search101.cell_answer,
    ask_with_context, ask, num_tokens, create_embeddings,
    stops_without_hits, search_answers.
  post_walk ltac:(empty_answer_leaf).
Qed.

(** X8. When the search of the collection returns no hit, the session
    never sends the generation request: its log holds the one chat request
    of the context-free question and the run ends with an exception, which
    is the [IndexError] of [neighbors[0]] when no SDK call raised. *)
Theorem empty_search_stops_before_generation E w :
  let r := run E Search101.notebook w in
  In [] (search_answers (trace r)) ->
  calls_to EP_chat (trace r) = 1 /\
  (exists e, result r = inl e) /\
  (raises (trace r) = [] -> result r = inl IndexError).
Proof.
  exact (post_run _ _ E w no_hits_search101).
Qed.

Lemma empty_search_stops_before_generation_witness :
  result (run Scenario.no_hits Search101.notebook []) = inl IndexError /\
  calls_to EP_chat (trace (run Scenario.no_hits Search101.notebook [])) = 1.
Proof.
  assert (Hin : In [] (search_answers
                         (trace (run Scenario.no_hits
                                   Search101.notebook [])))).
  { vm_compute. left. reflexivity. }
  destruct (@empty_search_stops_before_generation Scenario.no_hits []
              Hin) as (Hchat & _ & Hres).
  split; [apply Hres; reflexivity | exact Hchat].
Defined.

Lemma no_chunks_search101 : post Search101.notebook stops_without_chunks.
Proof.
  unfold Search101.notebook, setup, Search101.cell_read, Search101.cell_ask,
    Search101.cell_num_tokens, Search101.cell_chunking,
    Search101.cell_embed, Search101.cell_vectors, Search101.cell_index,
    Search101.cell_query, Search101.cell_search, Search101.cell_answer,
    ask_with_context, ask, num_tokens, create_embeddings,
    stops_without_chunks, split_answers.
  post_walk ltac:(empty_answer_leaf).
Qed.

(** X9. When the splitter returns no chunk (an empty document), the
    session ends in the chunking cell: no embedding is requested, the
    vector store is never opened, and the run ends with an exception,
    which is the [IndexError] of [context_text[0]] when no SDK call
    raised. *)
Theorem empty_document_stops_before_embedding E w :
  let r := run E Search101.notebook w in
  In [] (split_answers (trace r)) ->
  calls_to EP_embeddings (trace r) = 0 /\
  calls_to EP_QdrantClient (trace r) = 0 /\
  (exists e, result r = inl e) /\
  (raises (trace r) = [] -> result r = inl IndexError).
Proof.
  exact (post_run _ _ E w no_chunks_search101).
Qed.

Lemma empty_document_stops_before_embedding_witness :
  result (run Scenario.empty_document Search101.notebook [])
  = inl IndexError.
Proof.
  assert (Hin : In [] (split_answers
                         (trace (run Scenario.empty_document
                                   Search101.notebook [])))).
  { vm_compute. left. reflexivity. }
  destruct (@empty_document_stops_before_embedding
              Scenario.empty_document [] Hin) as (_ & _ & _ & Hres).
  apply Hres. reflexivity.
Defined.

(** ** The cells at their edges *)

Lemma index_bounds {A} (l : list A) (i : Z) (x : A) :
  index l i = inr x -> (- len l <= i < len l)%Z.
Proof.
  unfold index, len.
  destruct (i <? 0)%Z eqn:Hneg.
  - apply Z.ltb_lt in Hneg.
    destruct (0 <=? i + Z.of_nat (length l))%Z eqn:Hlo;
      [| discriminate].
    apply Z.leb_le in Hlo. intros _. lia.
  - apply Z.ltb_ge in Hneg.
    destruct (0 <=? i)%Z; [| discriminate].
    destruct (i <? Z.of_nat (length l))%Z eqn:Hhi; [| discriminate].
    apply Z.ltb_lt in Hhi. intros _. lia.
Qed.

Section CellEdges.
Import Search101.

(** X10. The indexing cell uploads all the points or none: in every run
    either no upload went through and the cell raised, or the one upload
    that went through carries every point of the comprehension and the
    cell returns them.  With fewer chunks than vectors nothing is
    uploaded, and when no SDK call raised the cell ends with [IndexError]
    after the collection has been recreated. *)
Theorem index_cell_uploads_all_or_nothing E w vectors texts :
  let r := run E (cell_index vectors texts) w in
  ((uploads (trace r) = [] /\ exists e, result r = inl e) \/
   (exists ps, points_of vectors texts = inr ps /\
               uploads (trace r) = [ps] /\ result r = inr ps)) /\
  (length texts < length vectors ->
   uploads (trace r) = [] /\
   (raises (trace r) = [] ->
    result r = inl IndexError /\
    calls_to EP_recreate_collection (trace r) = 1)).
Proof.
  unfold cell_index. simpl.
  destruct (respond E (QdrantClient ":memory:") w) as [[e | []] w1]; simpl.
  { split; [left; split; [reflexivity | now exists e] |].
    intros _. split; [reflexivity | discriminate]. }
  destruct (respond E _ w1) as [[e | created] w2]; simpl.
  { split; [left; split; [reflexivity | now exists e] |].
    intros _. split; [reflexivity | discriminate]. }
  destruct (points_of vectors texts) as [e | ps] eqn:Hps; simpl.
  { split; [left; split; [reflexivity | now exists e] |].
    intros _. split; [reflexivity |]. intros _.
    destruct (proj2 (points_of_succeeds_iff_aux vectors texts) e Hps)
      as [-> _].
    split; reflexivity. }
  assert (Hle : length vectors <= length texts).
  { apply (proj1 (points_of_succeeds_iff_aux vectors texts)).
    exists ps. split; [exact Hps |].
    now destruct (@points_of_nth vectors texts ps Hps). }
  destruct (respond E _ w2) as [[e | []] w3]; simpl.
  - split; [left; split; [reflexivity | now exists e] |].
    intros Hlt. lia.
  - split; [right; exists ps; repeat split; reflexivity |].
    intros Hlt. lia.
Qed.

Lemma index_cell_uploads_all_or_nothing_witness :
  uploads (trace (run Demo.environment
                    (cell_index [[inject_Z 1]; [inject_Z 2]]
                       [ {| page_content := "only" |} ]) [])) = [] /\
  result (run Demo.environment
            (cell_index [[inject_Z 1]; [inject_Z 2]]
               [ {| page_content := "only" |} ]) []) = inl IndexError.
Proof.
  destruct (proj2 (@index_cell_uploads_all_or_nothing Demo.environment []
                     [[inject_Z 1]; [inject_Z 2]]
                     [ {| page_content := "only" |} ]) (le_n 2))
    as [Hup Hres].
  split; [exact Hup | exact (proj1 (Hres eq_refl))].
Defined.

(** X11. The answer cell sends a request only when the first neighbour is
    an index of [context_text], counted from the start or, when negative,
    from the end; the request is then the chat request over the chunk at
    that index.  Without neighbours, or with an id outside
    [-len .. len - 1], the cell raises [IndexError] and nothing is sent. *)
Theorem answer_cell_needs_indexable_neighbor E w context_text neighbors :
  let r := run E (cell_answer context_text neighbors) w in
  (trace r <> [] ->
   exists n0 rest c,
     neighbors = n0 :: rest /\
     (- len context_text <= n0 < len context_text)%Z /\
     index context_text n0 = inr c /\
     hd_error (map req (trace r))
     = Some (ask_request MODEL (prompt question [c]))) /\
  (trace r = [] -> result r = inl IndexError).
Proof.
  unfold cell_answer. simpl.
  destruct (index neighbors 0) as [e | n0] eqn:Hn0; simpl.
  { apply index_raises in Hn0. subst e.
    split; [intros H; now contradiction H | reflexivity]. }
  destruct (index context_text n0) as [e | c] eqn:Hc; simpl.
  { apply index_raises in Hc. subst e.
    split; [intros H; now contradiction H | reflexivity]. }
  destruct (index_0_cons _ Hn0) as [rest ->].
  unfold ask_with_context, ask. simpl.
  destruct (respond E _ w) as [[e | r] w1]; simpl.
  - split; [| discriminate]. intros _.
    exists n0, rest, c. repeat split; try assumption;
      now apply index_bounds in Hc.
  - split.
    + intros _. exists n0, rest, c.
      assert (Hb := index_bounds _ _ Hc).
      destruct (index (choices r) 0) as [e | ch]; simpl;
        [now repeat split |].
      destruct (message_content (message ch)) as [s |]; simpl;
        [destruct (respond E (display (PStr s)) w1) as [[e | []] w2];
         simpl |];
        now repeat split.
    + destruct (index (choices r) 0) as [e | ch]; simpl; [discriminate |].
      destruct (message_content (message ch)) as [s |]; simpl;
        [destruct (respond E (display (PStr s)) w1) as [[e | []] w2];
         simpl |];
        discriminate.
Qed.

Lemma answer_cell_needs_indexable_neighbor_witness :
  result (run Demo.environment (cell_answer ["a"; "b"] [2%Z]) [])
  = inl IndexError.
Proof.
  exact (proj2 (@answer_cell_needs_indexable_neighbor Demo.environment []
                  ["a"; "b"] [2%Z]) eq_refl).
Defined.

End CellEdges.

(** X12. [ask] returns the content of the first choice of the reply and
    ignores the other choices; a reply without choices makes it raise
    [IndexError]. *)
Theorem ask_returns_first_choice E w query model r w' :
  respond E (ask_request model query) w = (inr r, w') ->
  result (run E (ask query model) w) =
    match choices r with
    | [] => inl IndexError
    | c :: _ => inr (message_content (message c))
    end.
Proof.
  unfold ask, ask_request. simpl. intros ->. simpl.
  destruct (choices r) as [| c rest]; reflexivity.
Qed.

Lemma ask_returns_first_choice_witness :
  result (run (Scenario.chatting Scenario.no_choices)
            (ask "Knock knock." MODEL) []) = inl IndexError.
Proof.
  exact (@ask_returns_first_choice (Scenario.chatting Scenario.no_choices)
           [] "Knock knock." MODEL Scenario.no_choices [] eq_refl).
Defined.

(** ** The two notebooks on chat completion at their edges *)

Lemma first_content_raises r e :
  first_content r = inl e -> e = IndexError /\ choices r = [].
Proof.
  unfold first_content. simpl.
  destruct (choices r) as [| c rest]; [| discriminate].
  now intros [= <-].
Qed.

Lemma prompting_needs_usage : post Prompting.notebook needs_usage.
Proof.
  unfold Prompting.notebook, setup.
  post_walk ltac:(fail).
  all: unfold needs_usage, chat_replies; simpl;
    intros reply rest Hchat Hu Hch; simpl in Hchat;
    try discriminate Hchat; injection Hchat as ? ?; subst.
  all: try match goal with
           | H : first_content _ = inl _ |- _ =>
               apply first_content_raises in H; destruct H as [_ H];
               contradiction
           end.
  all: try match goal with
           | H : usage_completion_tokens _ = inr _ |- _ =>
               unfold usage_completion_tokens in H; rewrite Hu in H;
               discriminate H
           end.
  all: split; [reflexivity | split; [eexists; reflexivity |]].
  all: intros Hr; try discriminate Hr.
  all: match goal with
       | H : usage_completion_tokens _ = inl _ |- _ =>
           unfold usage_completion_tokens in H; rewrite Hu in H;
           injection H as <-
       end.
  all: split; reflexivity.
Qed.

(** X13. In the prompting notebook a first reply that has a choice but no
    [usage] ends the session: the reply's content is printed, reading
    [usage.completion_tokens] raises [AttributeError] (when no SDK call
    raised), and the few-shot request is never sent. *)
Theorem prompting_stops_without_usage E w :
  let r := run E Prompting.notebook w in
  forall reply rest,
    chat_replies (trace r) = reply :: rest ->
    usage reply = None -> choices reply <> [] ->
    rest = [] /\
    (exists e, result r = inl e) /\
    (raises (trace r) = [] ->
     result r = inl AttributeError /\ calls_to EP_print (trace r) = 1).
Proof.
  exact (post_run _ _ E w prompting_needs_usage).
Qed.

Lemma prompting_stops_without_usage_witness :
  result (run (Scenario.chatting Scenario.no_usage) Prompting.notebook [])
  = inl AttributeError.
Proof.
  destruct (@prompting_stops_without_usage
              (Scenario.chatting Scenario.no_usage) []
              Scenario.no_usage [] eq_refl eq_refl)
    as (_ & _ & Hres); [discriminate |].
  exact (proj1 (Hres eq_refl)).
Defined.

Lemma lecture1_prints_before_reading :
  post Lecture1.notebook prints_before_reading.
Proof.
  unfold Lecture1.notebook, setup.
  post_walk ltac:(fail).
  all: unfold prints_before_reading, chat_replies; simpl;
    intros reply rest Hchat Hch; simpl in Hchat;
    try discriminate Hchat; injection Hchat as ? ?; subst.
  all: try match goal with
           | H : first_content _ = inr _ |- _ =>
               unfold first_content in H; rewrite Hch in H;
               discriminate H
           end.
  all: split; [reflexivity | split; [eexists; reflexivity |]].
  all: intros Hr; try discriminate Hr.
  all: match goal with
       | H : first_content _ = inl _ |- _ =>
           apply first_content_raises in H; destruct H as [-> _]
       end.
  all: repeat split; reflexivity.
Qed.

(** X14. In the first notebook the reply is dumped, parsed and printed
    before its choices are read: a first reply without choices is still
    printed as JSON, then reading [choices[0]] raises [IndexError] (when
    no SDK call raised) and the second chat request is never sent. *)
Theorem lecture1_prints_reply_before_reading_it E w :
  let r := run E Lecture1.notebook w in
  forall reply rest,
    chat_replies (trace r) = reply :: rest ->
    choices reply = [] ->
    rest = [] /\
    (exists e, result r = inl e) /\
    (raises (trace r) = [] ->
     result r = inl IndexError /\
     calls_to EP_json_dumps (trace r) = 1 /\
     calls_to EP_print (trace r) = 1).
Proof.
  exact (post_run _ _ E w lecture1_prints_before_reading).
Qed.

Lemma lecture1_prints_reply_before_reading_it_witness :
  result (run (Scenario.chatting Scenario.no_choices) Lecture1.notebook [])
  = inl IndexError /\
  calls_to EP_print
    (trace (run (Scenario.chatting Scenario.no_choices)
              Lecture1.notebook [])) = 1.
Proof.
  destruct (@lecture1_prints_reply_before_reading_it
              (Scenario.chatting Scenario.no_choices) []
              Scenario.no_choices [] eq_refl eq_refl)
    as (_ & _ & Hres).
  destruct (Hres eq_refl) as (Hr & _ & Hp).
  split; [exact Hr | exact Hp].
Defined.

(** ** The prompt of the generation *)

Lemma append_nil_r (s : string) : s ++ "" = s.
Proof. induction s as [| ch s IH]; simpl; [reflexivity | now rewrite IH]. Qed.

Lemma prefix_append (a b : string) : prefix a (a ++ b) = true.
Proof.
  induction a as [| ch a IH]; simpl; [now destruct b |].
  destruct (ascii_dec ch ch) as [_ | Hne]; [exact IH | now contradiction Hne].
Qed.

Lemma join_occurs sep (l : list string) c :
  In c l -> occurs c (join sep l).
Proof.
  unfold join.
  induction l as [| a l IH]; [intros [] |].
  intros [-> | Hin].
  - destruct l as [| b l]; simpl.
    + exists "", "". now rewrite append_nil_r.
    + exists "", (sep ++ String.concat sep (b :: l)). reflexivity.
  - destruct l as [| b l]; [destruct Hin |].
    destruct (IH Hin) as [before [after Heq]].
    exists (a ++ sep ++ before), after.
    change (String.concat sep (a :: b :: l))
      with (a ++ sep ++ String.concat sep (b :: l)).
    rewrite Heq, !append_assoc. reflexivity.
Qed.

(** X15. The one request of [ask_with_context] carries, as its user
    message, a prompt that starts with the introduction, holds every
    context string and the query verbatim, and ends with the query
    followed by a blank line: no context is dropped or cut. *)
Theorem prompt_holds_every_context query context model E w :
  (exists o,
      trace (run E (ask_with_context query context model) w)
      = [Entry (ask_request model (prompt query context)) o]) /\
  prefix introduction (prompt query context) = true /\
  (forall c, In c context -> occurs c (prompt query context)) /\
  (exists before, prompt query context = before ++ query ++ nlnl).
Proof.
  split; [| split; [| split]].
  - eexists. unfold ask_with_context, ask_request, prompt. apply ask_trace.
  - unfold prompt. rewrite append_assoc. apply prefix_append.
  - intros c Hc.
    destruct (join_occurs nlnl context c Hc) as [before [after Heq]].
    exists (introduction ++ before),
      (after ++ nlnl ++ "Question: " ++ query ++ nlnl).
    unfold prompt. rewrite Heq, !append_assoc. reflexivity.
  - exists ((introduction ++ join nlnl context) ++ nlnl ++ "Question: ").
    unfold prompt. rewrite !append_assoc. reflexivity.
Qed.

Lemma prompt_holds_every_context_witness :
  occurs "second chunk"
    (prompt "What happened?" ["first chunk"; "second chunk"]).
Proof.
  refine (proj1 (proj2 (proj2
            (@prompt_holds_every_context "What happened?"
               ["first chunk"; "second chunk"] MODEL Demo.offline tt)))
            "second chunk" _).
  right. left. reflexivity.
Defined.

(** ** What the notebooks do to the outside *)








(** ** The requests to the vector store *)

Section StoreRequests.
Import Search101 Search101Facts.

(** X16. The Search-101 notebook leaves the search to the vector-store
    client: in a session that reaches the last cell the requests to the
    client are, in this order and once each, opening the store in memory,
    recreating the collection [demo] with vectors of size 1536 and cosine
    distance, uploading the points, and searching [demo] for the query
    vector with [limit = 2]; [neighbors] and [distances] are the ids and
    the scores of the hits the search returned, as many and in the order
    returned: the notebook does not rank, cut or reorder them. *)
Theorem store_requests_of_a_session E w g :
  result (run E notebook w) = inr g ->
  (exists created,
      filter to_vector_store (trace (run E notebook w)) =
        [ Entry (QdrantClient ":memory:") (inr tt);
          Entry (recreate_collection "demo"
                   {| size := 1536; distance := COSINE |}) (inr created);
          Entry (upload_points "demo" (points g)) (inr tt);
          Entry (search "demo" (query_vector g) 2)
            (inr (search_results g)) ]) /\
  neighbors g = map hit_id (search_results g) /\
  distances g = map hit_score (search_results g).
Proof.
  intros Hres.
  destruct (@notebook_complete E w g Hres) as [x [Hg ->]].
  destruct Hg as [_ _ _ _ Hnb Hdist _ _].
  split; [| split; [exact Hnb | exact Hdist]].
  exists (recreated x). unfold log, retrieval_log.
  rewrite !filter_app, filter_store_shown_reply, filter_store_shown.
  reflexivity.
Qed.

Lemma store_requests_of_a_session_witness :
  neighbors Demo.session = [1%Z; 0%Z] /\
  distances Demo.session = [inject_Z 1764; inject_Z 672].
Proof.
  destruct (@store_requests_of_a_session Demo.environment [] Demo.session
              eq_refl) as (_ & Hnb & Hdist).
  split; [exact Hnb | exact Hdist].
Defined.

End StoreRequests.
